(** * POSIX shared memory through raw system calls (package [shm])

    A shallow embedding of [tools/utils/shm/shm_syscall.go] (the darwin and
    freebsd backend) and of the shared part of the package (pattern
    splitting, random names, the mapper, truncation).

    Go strings are [string]; byte buffers are [list byte]; machine integers
    are [Z] with the conversions written out.  Calls into the [unix] and [os]
    packages are recorded, in order, in a trace; what the operating system
    answers is given by an oracle that sees the whole history of calls, so
    every sequential behaviour of the kernel is covered.  A [for] loop that
    retries on [EINTR] has no bound in the source; it is embedded with an
    iteration allowance and reports [Spinning], with the trace reached so
    far, when the allowance is used up. *)

From Stdlib Require Import ZArith List String Ascii Bool Lia.
From Stdlib.Strings Require Import Byte.
Import ListNotations.
Local Open Scope string_scope.
Local Open Scope Z_scope.

(** ** Machine integers *)

Definition uint64 (z : Z) : Z := z mod 2 ^ 64.
Definition uint32 (z : Z) : Z := z mod 2 ^ 32.
(** [uintptr] is 64 bits wide on the platforms of this backend. *)
Definition uintptr (z : Z) : Z := z mod 2 ^ 64.
(** [int] and [int64]: two's complement, 64 bits. *)
Definition int64 (z : Z) : Z := (z + 2 ^ 63) mod 2 ^ 64 - 2 ^ 63.
Definition int (z : Z) : Z := int64 z.

(** ** Constants of the [unix] and [os] packages (darwin and freebsd agree
    on every value used here) *)

Definition EINTR : Z := 4.
Definition EEXIST : Z := 17.
Definition ENOTEMPTY : Z := 66.
Definition ENOENT : Z := 2.
Definition EACCES : Z := 13.
Definition EPERM : Z := 1.

Definition O_RDONLY : Z := 0.
Definition O_RDWR : Z := 2.
Definition O_ACCMODE : Z := 3.
Definition O_CREATE : Z := 512.
Definition O_EXCL : Z := 2048.

Definition PROT_READ : Z := 1.
Definition PROT_WRITE : Z := 2.
Definition MAP_SHARED : Z := 1.
Definition MAP_PRIVATE : Z := 2.

(** The two traps of the shared-memory family.  Their numbers differ between
    darwin and freebsd, so they are kept symbolic. *)
Inductive sysno : Type := SYS_SHM_OPEN | SYS_SHM_UNLINK.

(** ** Errors *)

Inductive fmt_arg : Type :=
| ArgString (s : string)
| ArgUint (n : Z).

(** Go's [error] values as far as this package builds or inspects them.
    [New] is a sentinel made by [errors.New], told apart by its text;
    [Errorf] is [fmt.Errorf] whose format ends in the [%w] verb, with the
    arguments before the wrapped error kept in [args]. *)
Inductive error : Type :=
| New (msg : string)
| Errno (e : Z)
| Errorf (format : string) (args : list fmt_arg) (wrapped : error)
| PathError (Op Path : string) (Err : error).

Definition ErrPatternHasSeparator : error :=
  New "The specified pattern has file path separators in it".
Definition ErrPatternTooLong : error :=
  New "The specified pattern for the SHM name is too long".

(** The sentinels of [io/fs]. *)
Definition fs_ErrExist : error := New "file already exists".
Definition fs_ErrNotExist : error := New "file does not exist".
Definition fs_ErrPermission : error := New "permission denied".

Definition fmt_arg_eqb (a b : fmt_arg) : bool :=
  match a, b with
  | ArgString s, ArgString t => String.eqb s t
  | ArgUint n, ArgUint m => Z.eqb n m
  | _, _ => false
  end.

Fixpoint args_eqb (l m : list fmt_arg) : bool :=
  match l, m with
  | [], [] => true
  | a :: l', b :: m' => fmt_arg_eqb a b && args_eqb l' m'
  | _, _ => false
  end.

Fixpoint error_eqb (a b : error) : bool :=
  match a, b with
  | New s, New t => String.eqb s t
  | Errno e, Errno e' => Z.eqb e e'
  | Errorf fa la wa, Errorf fb lb wb =>
      String.eqb fa fb && args_eqb la lb && error_eqb wa wb
  | PathError oa pa ea, PathError ob pb eb =>
      String.eqb oa ob && String.eqb pa pb && error_eqb ea eb
  | _, _ => false
  end.

(** [errors.Unwrap]. *)
Definition errors_Unwrap (err : option error) : option error :=
  match err with
  | Some (Errorf _ _ w) => Some w
  | Some (PathError _ _ e) => Some e
  | _ => None
  end.

(** The [Is] method of [syscall.Errno] ([unix.Errno] is the same type). *)
Definition Errno_Is (e : Z) (target : error) : bool :=
  if error_eqb target fs_ErrPermission then (e =? EACCES) || (e =? EPERM)
  else if error_eqb target fs_ErrExist then (e =? EEXIST) || (e =? ENOTEMPTY)
  else if error_eqb target fs_ErrNotExist then e =? ENOENT
  else false.

(** [errors.Is] for a non-nil target: walk the chain of wrapped errors,
    at each link comparing and asking the link's own [Is] method. *)
Fixpoint errors_Is_chain (err target : error) : bool :=
  error_eqb err target
  || match err with
     | Errno e => Errno_Is e target
     | Errorf _ _ w => errors_Is_chain w target
     | PathError _ _ e => errors_Is_chain e target
     | New _ => false
     end.

Definition errors_Is (err : option error) (target : error) : bool :=
  match err with
  | None => false
  | Some e => errors_Is_chain e target
  end.

(** [errors.Unwrap(err) == errno]. *)
Definition unwraps_to_errno (err : option error) (errno : Z) : bool :=
  match errors_Unwrap err with
  | Some (Errno e) => e =? errno
  | _ => false
  end.

(** ** Strings *)

(** [os.IsPathSeparator] on unix. *)
Definition IsPathSeparator (c : ascii) : bool := Ascii.eqb c "/"%char.

(** [strings.LastIndexByte]: the index of the last [c] in [s], counted from
    [i] for the head of [s]; [-1] when there is none. *)
Fixpoint LastIndexByte_from (i : Z) (s : string) (c : ascii) : Z :=
  match s with
  | EmptyString => -1
  | String a rest =>
      let r := LastIndexByte_from (i + 1) rest c in
      if r =? -1 then (if Ascii.eqb a c then i else -1) else r
  end.

Definition LastIndexByte (s : string) (c : ascii) : Z := LastIndexByte_from 0 s c.

Definition len (s : string) : Z := Z.of_nat (String.length s).

(** [s[:hi]] and [s[lo:]]. *)
Definition slice_to (s : string) (hi : Z) : string := substring 0 (Z.to_nat hi) s.
Definition slice_from (s : string) (lo : Z) : string :=
  substring (Z.to_nat lo) (String.length s - Z.to_nat lo) s.

(** [strings.HasPrefix]. *)
Definition HasPrefix (s pre : string) : bool := String.prefix pre s.

(** The check at the head of [prefix_and_suffix]: the loop over the bytes
    of the pattern. *)
Fixpoint has_separator (pattern : string) : bool :=
  match pattern with
  | EmptyString => false
  | String c rest => if IsPathSeparator c then true else has_separator rest
  end.

Definition prefix_and_suffix (pattern : string) : string * string * option error :=
  if has_separator pattern then ("", "", Some ErrPatternHasSeparator)
  else
    let pos := LastIndexByte pattern "*"%char in
    if negb (pos =? -1)
    then (slice_to pattern pos, slice_from pattern (pos + 1), None)
    else (pattern, "", None).

(** [strconv.FormatUint(u, 16)]: lowercase digits, no padding. *)
Definition hex_digit (d : Z) : ascii :=
  match String.get (Z.to_nat d) "0123456789abcdef" with
  | Some c => c
  | None => "0"%char
  end.

Fixpoint format_hex (digits : nat) (u : Z) (acc : string) : string :=
  match digits with
  | O => acc
  | S n =>
      let acc' := String (hex_digit (u mod 16)) acc in
      if u / 16 =? 0 then acc' else format_hex n (u / 16) acc'
  end.

Definition FormatUint16 (u : Z) : string := format_hex 16 (uint64 u) "".

(** [ByteSliceFromString]: the bytes of [s] followed by a zero byte. *)
Definition ByteSliceFromString (s : string) : list byte :=
  (list_byte_of_string s ++ [x00])%list.

(** [BytePtrFromString]: the pointer is embedded as the buffer it points to. *)
Definition BytePtrFromString (s : string) : list byte := ByteSliceFromString s.

(** ** Files, regions, handles *)

(** [*os.File] as made by [os.NewFile]. *)
Record File : Type := NewFile { Fd : Z; FileName : string }.

(** A [[]byte] that views mapped memory: where it starts and how long it is.
    The nil slice is [None]. *)
Record view : Type := View { base : Z; length : Z }.
Definition byte_slice : Type := option view.

Inductive AccessFlags : Type := READ | WRITE | COPY.

(** Modelled from the spec: the constant [RDWR] that [create_temp] passes to
    [syscall_mmap] is declared nowhere in the sources at hand; section 4.4
    step 4 says the new object is mapped read-write, shared, which is the
    mode [WRITE] of the mapper. *)
Definition RDWR : AccessFlags := WRITE.

Record syscall_based_mmap : Type := Handle {
  f : File;
  region : byte_slice;
  unlinked : bool
}.

(** ** The operating system *)

(** One entry per call the package makes into [unix] or [os]. *)
Inductive event : Type :=
| EvSyscall (trap : sysno) (a1 : list byte) (a2 a3 : Z)
| EvFtruncate (fd size : Z)
| EvMmap (fd off length prot flags : Z)
| EvMunmap (b : byte_slice)
| EvClose (fd : Z)
| EvRemove (path : string)
| EvStat (path : string).

(** What the system answers to a call, given every call made before it.
    [k_rand] is the global source of [math/rand], indexed by the number of
    values drawn so far. *)
Record Kernel : Type := {
  k_syscall : list event -> sysno -> list byte -> Z -> Z -> Z * Z * Z;
  k_ftruncate : list event -> Z -> Z -> option error;
  k_mmap : list event -> Z -> Z -> Z -> Z -> Z -> byte_slice * option error;
  k_munmap : list event -> byte_slice -> option error;
  k_close : list event -> Z -> option error;
  k_remove : list event -> string -> option error;
  k_stat : list event -> string -> Z * option error;
  k_rand : nat -> Z
}.

Record world : Type := World { trace : list event; draws : nat }.

Definition record_event (e : event) (w : world) : world :=
  World (trace w ++ [e])%list (draws w).

(** ** Computations *)

Inductive outcome (A : Type) : Type :=
| Done (a : A)
| Spinning.
Arguments Done {A} a.
Arguments Spinning {A}.

Definition M (A : Type) : Type := world -> outcome A * world.

Definition ret {A} (a : A) : M A := fun w => (Done a, w).
Definition bind {A B} (m : M A) (k : A -> M B) : M B :=
  fun w => match m w with
           | (Done a, w') => k a w'
           | (Spinning, w') => (Spinning, w')
           end.
Definition spin {A} : M A := fun w => (Spinning, w).

Declare Scope shm_scope.
Delimit Scope shm_scope with shm.
Notation "x <- m ;; k" := (bind m (fun x => k))
  (at level 61, m at next level, right associativity) : shm_scope.
Notation "' p <- m ;; k" := (bind m (fun x => let p := x in k))
  (at level 61, p pattern, m at next level, right associativity) : shm_scope.
Local Open Scope shm_scope.

(** ** Kernels to run the package on

    [quiet_kernel] lets every call succeed: traps return descriptor 3,
    mappings start at address 4096, objects are 64 bytes long and the random
    source always yields 0.  The others differ from it in one answer. *)

Definition ENOSPC : Z := 28.
Definition ENOMEM : Z := 12.

Definition quiet_kernel : Kernel := {|
  k_syscall := fun _ _ _ _ _ => (3, 0, 0);
  k_ftruncate := fun _ _ _ => None;
  k_mmap := fun _ _ _ length _ _ => (Some (View 4096 length), None);
  k_munmap := fun _ _ => None;
  k_close := fun _ _ => None;
  k_remove := fun _ _ => None;
  k_stat := fun _ _ => (64, None);
  k_rand := fun _ => 0
|}.

Definition with_syscall (K : Kernel) (r : Z * Z * Z) : Kernel := {|
  k_syscall := fun _ _ _ _ _ => r;
  k_ftruncate := k_ftruncate K;
  k_mmap := k_mmap K;
  k_munmap := k_munmap K;
  k_close := k_close K;
  k_remove := k_remove K;
  k_stat := k_stat K;
  k_rand := k_rand K
|}.

(** Every trap fails with the given errno. *)
Definition failing_trap_kernel (errno : Z) : Kernel :=
  with_syscall quiet_kernel (2 ^ 64 - 1, 0, errno).

Definition failing_ftruncate_kernel : Kernel := {|
  k_syscall := k_syscall quiet_kernel;
  k_ftruncate := fun _ _ _ => Some (Errno ENOSPC);
  k_mmap := k_mmap quiet_kernel;
  k_munmap := k_munmap quiet_kernel;
  k_close := k_close quiet_kernel;
  k_remove := k_remove quiet_kernel;
  k_stat := k_stat quiet_kernel;
  k_rand := k_rand quiet_kernel
|}.

Definition failing_mmap_kernel : Kernel := {|
  k_syscall := k_syscall quiet_kernel;
  k_ftruncate := k_ftruncate quiet_kernel;
  k_mmap := fun _ _ _ _ _ _ => (None, Some (Errno ENOMEM));
  k_munmap := k_munmap quiet_kernel;
  k_close := k_close quiet_kernel;
  k_remove := k_remove quiet_kernel;
  k_stat := k_stat quiet_kernel;
  k_rand := k_rand quiet_kernel
|}.

Definition failing_stat_kernel : Kernel := {|
  k_syscall := k_syscall quiet_kernel;
  k_ftruncate := k_ftruncate quiet_kernel;
  k_mmap := k_mmap quiet_kernel;
  k_munmap := k_munmap quiet_kernel;
  k_close := k_close quiet_kernel;
  k_remove := k_remove quiet_kernel;
  k_stat := fun _ path => (0, Some (PathError "stat" path (Errno ENOENT)));
  k_rand := k_rand quiet_kernel
|}.

(** The first [k] calls are interrupted, whatever they are; the calls after
    them succeed. *)
Definition interrupting_kernel (k : nat) : Kernel := {|
  k_syscall := fun h _ _ _ _ =>
    if (List.length h <? k)%nat then (2 ^ 64 - 1, 0, EINTR) else (3, 0, 0);
  k_ftruncate := fun h _ _ =>
    if (List.length h <? k)%nat then Some (Errno EINTR) else None;
  k_mmap := k_mmap quiet_kernel;
  k_munmap := k_munmap quiet_kernel;
  k_close := k_close quiet_kernel;
  k_remove := k_remove quiet_kernel;
  k_stat := k_stat quiet_kernel;
  k_rand := k_rand quiet_kernel
|}.

(** The first [k] calls are interrupted; every trap after them fails with
    the given errno. *)
Definition interrupted_then_failing_kernel (k : nat) (errno : Z) : Kernel := {|
  k_syscall := fun h _ _ _ _ =>
    if (List.length h <? k)%nat then (2 ^ 64 - 1, 0, EINTR) else (2 ^ 64 - 1, 0, errno);
  k_ftruncate := k_ftruncate quiet_kernel;
  k_mmap := k_mmap quiet_kernel;
  k_munmap := k_munmap quiet_kernel;
  k_close := k_close quiet_kernel;
  k_remove := k_remove quiet_kernel;
  k_stat := k_stat quiet_kernel;
  k_rand := k_rand quiet_kernel
|}.

Definition fresh_world : world := World [] 0.

(** A handle as [CreateTemp] returns it on [quiet_kernel]. *)
Definition kitty_handle : syscall_based_mmap :=
  Handle (NewFile 3 "kitty-0") (Some (View 4096 64)) false.

(** How the creation loop of [create_temp] is left: by a [return] inside
    the loop, or by [break] with the current [f] and [err]. *)
Inductive loop_exit : Type :=
| Return (ans : option syscall_based_mmap) (err : option error)
| Break (f : option File) (err : option error).

(** ** The package, over a kernel and the platform's constants *)

Section Shm.

Variable K : Kernel.

(** Platform constants, declared per operating system outside the files at
    hand: the longest name the kernel accepts and the prefix it requires. *)
Variable SHM_NAME_MAX : Z.
Variable SHM_REQUIRED_PREFIX : string.

(** The package-level [ErrExist] carried by the exhaustion error; like the
    two constants above it is declared outside the files at hand. *)
Variable ErrExist : error.

(** *** Calls into [unix], [os] and [math/rand] *)

Definition unix_Syscall (trap : sysno) (a1 : list byte) (a2 a3 : Z) : M (Z * Z * Z) :=
  fun w => (Done (k_syscall K (trace w) trap a1 a2 a3),
            record_event (EvSyscall trap a1 a2 a3) w).

Definition unix_Ftruncate (fd size : Z) : M (option error) :=
  fun w => (Done (k_ftruncate K (trace w) fd size), record_event (EvFtruncate fd size) w).

Definition unix_Mmap (fd off length prot flags : Z) : M (byte_slice * option error) :=
  fun w => (Done (k_mmap K (trace w) fd off length prot flags),
            record_event (EvMmap fd off length prot flags) w).

Definition unix_Munmap (b : byte_slice) : M (option error) :=
  fun w => (Done (k_munmap K (trace w) b), record_event (EvMunmap b) w).

Definition File_Close (file : File) : M (option error) :=
  fun w => (Done (k_close K (trace w) (Fd file)), record_event (EvClose (Fd file)) w).

Definition os_Remove (path : string) : M (option error) :=
  fun w => (Done (k_remove K (trace w) path), record_event (EvRemove path) w).

Definition os_Stat (path : string) : M (Z * option error) :=
  fun w => (Done (let '(size, err) := k_stat K (trace w) path in (int64 size, err)),
            record_event (EvStat path) w).

Definition rand_Uint32 : M Z :=
  fun w => (Done (uint32 (k_rand K (draws w))), World (trace w) (S (draws w))).

(** *** The shared part of the package *)

Definition next_random : M string :=
  num <- rand_Uint32 ;;
  ret (FormatUint16 (uint64 num)).

Definition mmap_prot (access : AccessFlags) : Z :=
  match access with
  | COPY => Z.lor PROT_READ PROT_WRITE
  | WRITE => Z.lor PROT_READ PROT_WRITE
  | READ => PROT_READ
  end.

Definition mmap_flags (access : AccessFlags) : Z :=
  match access with
  | COPY => MAP_PRIVATE
  | _ => MAP_SHARED
  end.

Definition mmap (sz : Z) (access : AccessFlags) (fd off : Z) : M (byte_slice * option error) :=
  let flags := mmap_flags access in
  let prot := mmap_prot access in
  '(b, err) <- unix_Mmap fd off sz prot flags ;;
  match err with
  | Some e => ret (None, Some e)
  | None => ret (b, None)
  end.

Definition munmap (s : byte_slice) : M (option error) := unix_Munmap s.

Fixpoint ftruncate_loop (allowance : nat) (fd size : Z) : M (option error) :=
  match allowance with
  | O => spin
  | S n =>
      err <- unix_Ftruncate fd size ;;
      if negb (errors_Is err (Errno EINTR)) then ret err
      else ftruncate_loop n fd size
  end.

Definition truncate_or_unlink (allowance : nat) (ans : File) (size : Z) : M (option error) :=
  err <- ftruncate_loop allowance (int (Fd ans)) (int64 size) ;;
  match err with
  | Some e =>
      _ <- File_Close ans ;;
      _ <- os_Remove (FileName ans) ;;
      ret (Some (Errorf "Failed to ftruncate() SHM file %s to size: %d with error: %w"
                        [ArgString (FileName ans); ArgUint size] e))
  | None => ret None
  end.

(** *** [shm_syscall.go] *)

Fixpoint shm_unlink_loop (allowance : nat) (bname : list byte) : M (option error) :=
  match allowance with
  | O => spin
  | S n =>
      '(_, _, errno) <- unix_Syscall SYS_SHM_OPEN bname 0 0 ;;
      if negb (errno =? EINTR) then
        ret (if negb (errno =? 0)
             then Some (Errorf "shm_unlink() failed with error: %w" [] (Errno errno))
             else None)
      else shm_unlink_loop n bname
  end.

Definition shm_unlink (allowance : nat) (name : string) : M (option error) :=
  shm_unlink_loop allowance (BytePtrFromString name).

Fixpoint shm_open_loop (allowance : nat) (bname : list byte) (flags perm : Z)
  : M (Z * option error) :=
  match allowance with
  | O => spin
  | S n =>
      '(fd, _, errno) <- unix_Syscall SYS_SHM_OPEN bname (uintptr flags) (uintptr perm) ;;
      if negb (errno =? EINTR) then
        ret (fd, if negb (errno =? 0)
                 then Some (Errorf "shm_open() failed with error: %w" [] (Errno errno))
                 else None)
      else shm_open_loop n bname flags perm
  end.

Definition shm_open (allowance : nat) (name : string) (flags perm : Z)
  : M (option File * option error) :=
  '(fd, err) <- shm_open_loop allowance (BytePtrFromString name) flags perm ;;
  match err with
  | None => ret (Some (NewFile fd name), None)
  | Some e => ret (None, Some e)
  end.

(** The call in the source hands [mmap] one more argument, a literal
    [false] after the access mode, than the [mmap] of the package takes; it
    selects nothing in that function and is left out. *)
Definition syscall_mmap (allowance : nat) (file : File) (size : Z)
  (access : AccessFlags) (truncate : bool)
  : M (option syscall_based_mmap * option error) :=
  err <- (if truncate then truncate_or_unlink allowance file size else ret None) ;;
  match err with
  | Some e => ret (None, Some (Errorf "truncate failed with error: %w" [] e))
  | None =>
      '(region, err) <- mmap (int size) access (int (Fd file)) 0 ;;
      match err with
      | Some e =>
          _ <- File_Close file ;;
          _ <- os_Remove (FileName file) ;;
          ret (None, Some (Errorf "mmap failed with error: %w" [] e))
      | None => ret (Some (Handle file region false), None)
      end
  end.

Definition Name (self : syscall_based_mmap) : string := FileName (f self).

Definition Slice (self : syscall_based_mmap) : byte_slice := region self.

(** The methods have a pointer receiver: each returns the handle as it has
    left it, next to its result. *)
Definition Close (self : syscall_based_mmap) : M (syscall_based_mmap * option error) :=
  err <- File_Close (f self) ;;
  ret (Handle (f self) None (unlinked self), err).

Definition Unlink (allowance : nat) (self : syscall_based_mmap)
  : M (syscall_based_mmap * option error) :=
  if unlinked self then ret (self, None)
  else
    let self' := Handle (f self) (region self) true in
    err <- shm_unlink allowance (Name self') ;;
    ret (self', err).

(** [err != nil && (errors.Is(err, fs.ErrExist) || errors.Unwrap(err) == unix.EEXIST)] *)
Definition already_exists (err : option error) : bool :=
  match err with
  | None => false
  | Some _ => errors_Is err fs_ErrExist || unwraps_to_errno err EEXIST
  end.

(** The [for] loop of [create_temp].  It runs at most 10001 times, since
    every turn that continues adds one to [try]; [left] counts the turns
    that may still continue and starts at 10000 with [try] at 0.  The mode
    [0600] is 384. *)
Fixpoint create_loop (allowance : nat) (prefix suffix : string) (left : nat) (try : Z)
  : M loop_exit :=
  rnd <- next_random ;;
  let name := prefix ++ rnd ++ suffix in
  if len name >? SHM_NAME_MAX then ret (Return None (Some ErrPatternTooLong))
  else
    '(file, err) <- shm_open allowance name (Z.lor (Z.lor O_EXCL O_CREATE) O_RDWR) 384 ;;
    if already_exists err then
      let try := try + 1 in
      if try >? 10000 then
        ret (Return None (Some (PathError "createtemp" (prefix ++ "*" ++ suffix) ErrExist)))
      else
        match left with
        | O => spin
        | S left' => create_loop allowance prefix suffix left' try
        end
    else ret (Break file err).

(** The prefix in use after the [if] on [SHM_REQUIRED_PREFIX]. *)
Definition with_required_prefix (pattern prefix : string) : string :=
  if negb (SHM_REQUIRED_PREFIX =? "")%string
     && negb (HasPrefix pattern SHM_REQUIRED_PREFIX)
  then SHM_REQUIRED_PREFIX ++ prefix else prefix.

Definition create_temp (allowance : nat) (pattern : string) (size : Z)
  : M (option syscall_based_mmap * option error) :=
  let '(prefix, suffix, err) := prefix_and_suffix pattern in
  match err with
  | Some e => ret (None, Some e)
  | None =>
      let prefix := with_required_prefix pattern prefix in
      r <- create_loop allowance prefix suffix (Z.to_nat 10000) 0 ;;
      match r with
      | Return ans err => ret (ans, err)
      | Break file err =>
          match err, file with
          | Some e, _ => ret (None, Some e)
          | None, Some file => syscall_mmap allowance file size RDWR true
          | None, None => ret (None, None)
          end
      end
  end.

Definition CreateTemp := create_temp.

Definition Open (allowance : nat) (name : string)
  : M (option syscall_based_mmap * option error) :=
  '(ans, err) <- shm_open allowance name O_RDONLY 0 ;;
  match err, ans with
  | Some e, _ => ret (None, Some e)
  | None, None => ret (None, None)
  | None, Some ans =>
      '(s, err) <- os_Stat name ;;
      match err with
      | Some e =>
          _ <- File_Close ans ;;
          ret (None, Some e)
      | None => syscall_mmap allowance ans (uint64 s) READ false
      end
  end.

(** *** A client of a handle *)

Inductive handle_op : Type := OpClose | OpUnlink | OpSlice | OpName.

Definition run_op (allowance : nat) (op : handle_op) (self : syscall_based_mmap)
  : M syscall_based_mmap :=
  match op with
  | OpClose => '(self', _) <- Close self ;; ret self'
  | OpUnlink => '(self', _) <- Unlink allowance self ;; ret self'
  | OpSlice => let _ := Slice self in ret self
  | OpName => let _ := Name self in ret self
  end.

Fixpoint run_ops (allowance : nat) (ops : list handle_op) (self : syscall_based_mmap)
  : M syscall_based_mmap :=
  match ops with
  | [] => ret self
  | op :: rest => self' <- run_op allowance op self ;; run_ops allowance rest self'
  end.

(** [Unlink] called twice in a row, with both results. *)
Definition unlink_twice (allowance : nat) (self : syscall_based_mmap)
  : M (syscall_based_mmap * option error * option error) :=
  '(self1, err1) <- Unlink allowance self ;;
  '(self2, err2) <- Unlink allowance self1 ;;
  ret (self2, err1, err2).

(** *** What a computation adds to the trace *)

(** Every call [m] makes, from any world, satisfies [P]. *)
Definition emits {A} (P : event -> Prop) (m : M A) : Prop :=
  forall w, exists d, trace (snd (m w)) = (trace w ++ d)%list /\ Forall P d.

Definition is_munmap (e : event) : bool :=
  match e with
  | EvMunmap _ => true
  | _ => false
  end.

(** *** Turns of the creation loop *)

(** The flags [create_temp] opens with. *)
Definition create_flags : Z := Z.lor (Z.lor O_EXCL O_CREATE) O_RDWR.

(** One turn of the loop that finds the candidate taken: a name is drawn, it
    fits, and [shm_open] reports that it already exists.  The result is the
    world after the turn, [None] when the turn goes any other way. *)
Definition collision (allowance : nat) (prefix suffix : string) (w : world) : option world :=
  match next_random w with
  | (Done rnd, w1) =>
      if len (prefix ++ rnd ++ suffix) >? SHM_NAME_MAX then None
      else match shm_open allowance (prefix ++ rnd ++ suffix) create_flags 384 w1 with
           | (Done (_, err), w2) => if already_exists err then Some w2 else None
           | (Spinning, _) => None
           end
  | (Spinning, _) => None
  end.

Fixpoint collisions (k : nat) (allowance : nat) (prefix suffix : string) (w : world)
  : option world :=
  match k with
  | O => Some w
  | S k' =>
      match collision allowance prefix suffix w with
      | Some w1 => collisions k' allowance prefix suffix w1
      | None => None
      end
  end.

(** Whether an error mentions the string [s]: as an argument of a format
    or as the path of a [PathError], anywhere along its chain. *)
Fixpoint error_names (err : error) (s : string) : bool :=
  match err with
  | New _ => false
  | Errno _ => false
  | Errorf _ args w =>
      existsb (fun a => fmt_arg_eqb a (ArgString s)) args || error_names w s
  | PathError _ path e => String.eqb path s || error_names e s
  end.

Definition is_shm_unlink (e : event) : bool :=
  match e with
  | EvSyscall SYS_SHM_UNLINK _ _ _ => true
  | _ => false
  end.

(** *** Reading a name back *)

Definition is_lower_hex (c : ascii) : bool :=
  existsb (Ascii.eqb c) (list_ascii_of_string "0123456789abcdef").

(** The value of a hexadecimal digit, zero for any other character. *)
Definition hex_digit_value (c : ascii) : Z :=
  match index 0 (String c "") "0123456789abcdef" with
  | Some i => Z.of_nat i
  | None => 0
  end.

(** The number a string of hexadecimal digits denotes, most significant
    digit first. *)
Fixpoint hex_value_from (acc : Z) (s : string) : Z :=
  match s with
  | EmptyString => acc
  | String c rest => hex_value_from (acc * 16 + hex_digit_value c) rest
  end.

Definition hex_value (s : string) : Z := hex_value_from 0 s.

Fixpoint all_chars (p : ascii -> bool) (s : string) : bool :=
  match s with
  | EmptyString => true
  | String c rest => p c && all_chars p rest
  end.

(** The suffix [next_random] makes of the value drawn at index [d]. *)
Definition suffix_of_draw (d : nat) : string :=
  FormatUint16 (uint64 (uint32 (k_rand K d))).

(** A computation that leaves the random source alone. *)
Definition keeps_draws {A} (m : M A) : Prop :=
  forall w, draws (snd (m w)) = draws w.

(** What a call made by [create_temp] for [size] bytes may be. *)
Definition create_temp_call (size : Z) (e : event) : Prop :=
  match e with
  | EvSyscall trap a1 a2 a3 =>
      trap = SYS_SHM_OPEN
      /\ a2 = Z.lor (Z.lor O_EXCL O_CREATE) O_RDWR /\ a3 = 384
      /\ Z.land a2 O_EXCL = O_EXCL /\ Z.land a2 O_CREATE = O_CREATE
      /\ exists name, a1 = BytePtrFromString name /\ len name <= SHM_NAME_MAX
  | EvFtruncate _ l => l = int64 size
  | EvMmap _ off l prot flags =>
      off = 0 /\ l = int size /\ prot = Z.lor PROT_READ PROT_WRITE /\ flags = MAP_SHARED
  | EvClose _ => True
  | EvRemove _ => True
  | EvMunmap _ => False
  | EvStat _ => False
  end.

(** ** Properties *)

(** *** The pure functions on a few inputs *)

Example prefix_and_suffix_one_star :
  prefix_and_suffix "kitty-*.shm" = ("kitty-", ".shm", None).
Proof. reflexivity. Qed.

Example prefix_and_suffix_last_star :
  prefix_and_suffix "a*b*c" = ("a*b", "c", None).
Proof. reflexivity. Qed.

Example prefix_and_suffix_no_star :
  prefix_and_suffix "kitty" = ("kitty", "", None).
Proof. reflexivity. Qed.

Example prefix_and_suffix_separator :
  prefix_and_suffix "tmp/kitty-*" = ("", "", Some ErrPatternHasSeparator).
Proof. reflexivity. Qed.

Example FormatUint16_zero : FormatUint16 0 = "0".
Proof. reflexivity. Qed.

Example FormatUint16_255 : FormatUint16 255 = "ff".
Proof. reflexivity. Qed.

Example FormatUint16_max_uint32 : FormatUint16 (2 ^ 32 - 1) = "ffffffff".
Proof. reflexivity. Qed.

Example errors_Is_wrapped_eexist :
  errors_Is (Some (Errorf "shm_open() failed with error: %w" [] (Errno EEXIST))) fs_ErrExist
  = true.
Proof. reflexivity. Qed.

Example errors_Is_wrapped_enoent :
  errors_Is (Some (Errorf "shm_open() failed with error: %w" [] (Errno ENOENT))) fs_ErrExist
  = false.
Proof. reflexivity. Qed.

Example int_of_large_uint64 : int (2 ^ 63) = - 2 ^ 63.
Proof. reflexivity. Qed.

(** *** Integers and strings *)

Lemma int64_small (z : Z) : - 2 ^ 63 <= z < 2 ^ 63 -> int64 z = z.
Proof.
  intros H. unfold int64.
  rewrite Z.mod_small by lia. lia.
Qed.

Lemma int64_uint64 (z : Z) : int64 (uint64 (int64 z)) = int64 z.
Proof.
  unfold int64, uint64.
  assert (H : 0 <= (z + 2 ^ 63) mod 2 ^ 64 < 2 ^ 64) by (apply Z.mod_pos_bound; lia).
  set (m := (z + 2 ^ 63) mod 2 ^ 64) in *.
  rewrite Zplus_mod_idemp_l.
  replace (m - 2 ^ 63 + 2 ^ 63) with m by lia.
  rewrite (Z.mod_small m) by lia. reflexivity.
Qed.

Lemma has_separator_get (pattern : string) :
  (exists i, String.get i pattern = Some "/"%char) -> has_separator pattern = true.
Proof.
  induction pattern as [|c rest IH]; intros [i Hi].
  - destruct i; discriminate.
  - simpl. destruct i as [|i].
    + simpl in Hi. injection Hi as ->. reflexivity.
    + simpl in Hi. destruct (IsPathSeparator c); [reflexivity|].
      apply IH. now exists i.
Qed.

(** *** Traces *)

Lemma shm_unlink_loop_trace (n : nat) (bname : list byte) (w : world) :
  exists k : nat,
    trace (snd (shm_unlink_loop n bname w))
    = (trace w ++ repeat (EvSyscall SYS_SHM_OPEN bname 0 0) k)%list
    /\ draws (snd (shm_unlink_loop n bname w)) = draws w
    /\ (k <= n)%nat /\ (0 < n -> 0 < k)%nat.
Proof.
  revert w. induction n as [|n IH]; intros w.
  - exists 0%nat. simpl. rewrite app_nil_r. repeat split; lia.
  - simpl. unfold bind, unix_Syscall.
    destruct (k_syscall K (trace w) SYS_SHM_OPEN bname 0 0) as [[r1 r2] errno].
    destruct (negb (errno =? EINTR)).
    + exists 1%nat. simpl. repeat split; lia.
    + destruct (IH (record_event (EvSyscall SYS_SHM_OPEN bname 0 0) w))
        as (k & Ht & Hd & Hk & _).
      exists (S k). rewrite Ht, Hd. simpl.
      rewrite <- app_assoc. simpl. repeat split; lia.
Qed.

Lemma snoc_repeat {A} (l : list A) (x : A) (j : nat) :
  ((l ++ [x]) ++ repeat x j = l ++ repeat x (S j))%list.
Proof. now rewrite <- app_assoc. Qed.

(** What [shm_unlink] does when its first [k] traps are interrupted and the
    next one is not. *)
Lemma shm_unlink_loop_interrupted (k : nat) (bname : list byte) :
  forall (n : nat) (w : world) (r1 r2 errno : Z),
    (forall j, (j < k)%nat ->
               snd (k_syscall K (trace w ++ repeat (EvSyscall SYS_SHM_OPEN bname 0 0) j)%list
                      SYS_SHM_OPEN bname 0 0) = EINTR) ->
    k_syscall K (trace w ++ repeat (EvSyscall SYS_SHM_OPEN bname 0 0) k)%list
      SYS_SHM_OPEN bname 0 0 = (r1, r2, errno) ->
    errno <> EINTR -> (k < n)%nat ->
    shm_unlink_loop n bname w
    = (Done (if errno =? 0 then None
             else Some (Errorf "shm_unlink() failed with error: %w" [] (Errno errno))),
       World (trace w ++ repeat (EvSyscall SYS_SHM_OPEN bname 0 0) (S k))%list (draws w)).
Proof.
  induction k as [|k IH]; intros n w r1 r2 errno Hint Hlast Hne Hn;
    (destruct n as [|n]; [lia|]); cbn [shm_unlink_loop]; unfold bind, unix_Syscall.
  - simpl in Hlast. rewrite app_nil_r in Hlast. rewrite Hlast.
    apply Z.eqb_neq in Hne. rewrite Hne. simpl.
    destruct (errno =? 0); reflexivity.
  - pose proof (Hint 0%nat ltac:(lia)) as H0. simpl in H0. rewrite app_nil_r in H0.
    destruct (k_syscall K (trace w) SYS_SHM_OPEN bname 0 0) as [[a b] e0].
    simpl in H0. subst e0. simpl.
    rewrite (IH n (record_event (EvSyscall SYS_SHM_OPEN bname 0 0) w) r1 r2 errno).
    + unfold record_event. simpl. now rewrite <- app_assoc.
    + intros j Hj. unfold record_event. cbn [trace]. rewrite snoc_repeat.
      apply Hint. lia.
    + unfold record_event. cbn [trace]. rewrite snoc_repeat. exact Hlast.
    + exact Hne.
    + lia.
Qed.

(** *** Handle operations *)

(** C1 (the code departs from it): on a handle that is not yet unlinked,
    [Unlink] is to issue the shared-memory unlink trap for the handle's
    name.  What [shm_unlink] issues is the open trap, [SYS_SHM_OPEN], on the
    name with flags and mode zero, once and again after each [EINTR]; these
    are all the calls it makes, so [SYS_SHM_UNLINK] is never issued. *)
Theorem Unlink_issues_shm_open_trap (n : nat) (self : syscall_based_mmap) (w : world) :
  unlinked self = false ->
  exists k : nat,
    trace (snd (Unlink n self w))
    = (trace w ++ repeat (EvSyscall SYS_SHM_OPEN (BytePtrFromString (Name self)) 0 0) k)%list
    /\ (0 < n -> 0 < k)%nat
    /\ forall a1 a2 a3, ~ In (EvSyscall SYS_SHM_UNLINK a1 a2 a3)
                            (repeat (EvSyscall SYS_SHM_OPEN (BytePtrFromString (Name self)) 0 0) k).
Proof.
  intros Hu. unfold Unlink. rewrite Hu. unfold bind, shm_unlink, Name. cbn [f].
  destruct (shm_unlink_loop_trace n (BytePtrFromString (FileName (f self))) w)
    as (k & Ht & _ & _ & Hk).
  exists k. split; [|split].
  - destruct (shm_unlink_loop n (BytePtrFromString (FileName (f self))) w) as [[err|] w'];
      simpl in *; exact Ht.
  - exact Hk.
  - intros a1 a2 a3 Hin. apply repeat_spec in Hin. discriminate.
Qed.

(** C7, as amended: two calls of [Unlink] on a handle that is not yet
    unlinked behave as one run of [shm_unlink] on the handle's name.  The
    first call makes that run and reports its result; the second call makes
    no call at all and reports no error.  When the first trap of the run is
    answered with errno 0, one trap is all that is issued and neither call
    reports an error.  In general the trap is issued again only after an
    answer of [EINTR]: when the first [k] answers are [EINTR] and the next
    one is not, the two calls issue [k + 1] traps in all, and the first call
    reports no error when that last errno is 0 and otherwise that errno
    wrapped as "shm_unlink() failed with error". *)
Theorem Unlink_twice_runs_shm_unlink_once (n : nat) (self : syscall_based_mmap) (w : world) :
  unlinked self = false ->
  unlink_twice n self w
  = match shm_unlink n (Name self) w with
    | (Done err1, w1) => (Done (Handle (f self) (region self) true, err1, None), w1)
    | (Spinning, w1) => (Spinning, w1)
    end
  /\ (forall r1 r2 : Z,
         (0 < n)%nat ->
         k_syscall K (trace w) SYS_SHM_OPEN (BytePtrFromString (Name self)) 0 0 = (r1, r2, 0) ->
         unlink_twice n self w
         = (Done (Handle (f self) (region self) true, None, None),
            record_event (EvSyscall SYS_SHM_OPEN (BytePtrFromString (Name self)) 0 0) w))
  /\ (forall (k : nat) (r1 r2 errno : Z),
         (forall j, (j < k)%nat ->
                    snd (k_syscall K
                           (trace w ++ repeat (EvSyscall SYS_SHM_OPEN
                                                 (BytePtrFromString (Name self)) 0 0) j)%list
                           SYS_SHM_OPEN (BytePtrFromString (Name self)) 0 0) = EINTR) ->
         k_syscall K
           (trace w ++ repeat (EvSyscall SYS_SHM_OPEN
                                 (BytePtrFromString (Name self)) 0 0) k)%list
           SYS_SHM_OPEN (BytePtrFromString (Name self)) 0 0 = (r1, r2, errno) ->
         errno <> EINTR -> (k < n)%nat ->
         unlink_twice n self w
         = (Done (Handle (f self) (region self) true,
                  (if errno =? 0 then None
                   else Some (Errorf "shm_unlink() failed with error: %w" [] (Errno errno))),
                  None),
            World (trace w ++ repeat (EvSyscall SYS_SHM_OPEN
                                        (BytePtrFromString (Name self)) 0 0) (S k))%list
                  (draws w))).
Proof.
  intros Hu.
  assert (Hrun : unlink_twice n self w
                 = match shm_unlink n (Name self) w with
                   | (Done err1, w1) =>
                       (Done (Handle (f self) (region self) true, err1, None), w1)
                   | (Spinning, w1) => (Spinning, w1)
                   end).
  { unfold unlink_twice, Unlink. rewrite Hu. unfold bind, Name. cbn [f].
    destruct (shm_unlink n (FileName (f self)) w) as [[err|] w1]; reflexivity. }
  split; [exact Hrun|]. split.
  - intros r1 r2 Hn Hk. destruct n as [|n]; [lia|].
    unfold unlink_twice, Unlink. rewrite Hu. unfold bind at 1 2.
    unfold shm_unlink, Name in *. cbn [f shm_unlink_loop].
    unfold bind at 1. unfold unix_Syscall. rewrite Hk. reflexivity.
  - intros k r1 r2 errno Hint Hlast Hne Hn. rewrite Hrun. unfold shm_unlink.
    now rewrite (shm_unlink_loop_interrupted k (BytePtrFromString (Name self)) n w
                   r1 r2 errno Hint Hlast Hne Hn).
Qed.

Lemma Close_run (self : syscall_based_mmap) (w : world) :
  Close self w
  = (Done (Handle (f self) None (unlinked self), k_close K (trace w) (Fd (f self))),
     record_event (EvClose (Fd (f self))) w).
Proof. reflexivity. Qed.

Lemma run_op_keeps_nil (n : nat) (op : handle_op) (self : syscall_based_mmap) (w : world) :
  Slice self = None ->
  match fst (run_op n op self w) with
  | Done self' => Slice self' = None
  | Spinning => True
  end.
Proof.
  intros Hs. destruct op; simpl; auto.
  - unfold Unlink. destruct (unlinked self); simpl; auto.
    unfold bind. destruct (shm_unlink n _ w) as [[err|] w1]; simpl; auto.
Qed.

Lemma run_ops_keeps_nil (n : nat) (ops : list handle_op) :
  forall (self : syscall_based_mmap) (w : world),
    Slice self = None ->
    match fst (run_ops n ops self w) with
    | Done self' => Slice self' = None
    | Spinning => True
    end.
Proof.
  induction ops as [|op rest IH]; intros self w Hs; simpl; auto.
  unfold bind. pose proof (run_op_keeps_nil n op self w Hs) as H1.
  destruct (run_op n op self w) as [[self1|] w1]; simpl in *; [|exact I].
  now apply IH.
Qed.

(** C8: [Close] sets the handle's region to nil, so [Slice] gives nil right
    after it and after any further calls on the handle. *)
Theorem Slice_nil_after_Close (self : syscall_based_mmap) (w : world) :
  exists self1 err w1,
    Close self w = (Done (self1, err), w1)
    /\ Slice self1 = None
    /\ forall (n : nat) (ops : list handle_op),
         match fst (run_ops n ops self1 w1) with
         | Done self' => Slice self' = None
         | Spinning => True
         end.
Proof.
  rewrite Close_run. eexists _, _, _. split; [reflexivity|]. split; [reflexivity|].
  intros n ops. now apply run_ops_keeps_nil.
Qed.

Lemma run_op_no_munmap (n : nat) (op : handle_op) (self : syscall_based_mmap) (w : world) :
  exists d, trace (snd (run_op n op self w)) = (trace w ++ d)%list
            /\ forallb (fun e => negb (is_munmap e)) d = true.
Proof.
  destruct op; simpl.
  - exists [EvClose (Fd (f self))]. split; reflexivity.
  - unfold Unlink. destruct (unlinked self) eqn:Hu.
    + exists []. simpl. now rewrite app_nil_r.
    + unfold bind, shm_unlink.
      unfold Name. cbn [f].
      destruct (shm_unlink_loop_trace n (BytePtrFromString (FileName (f self))) w)
        as (k & Ht & _).
      exists (repeat (EvSyscall SYS_SHM_OPEN (BytePtrFromString (FileName (f self))) 0 0) k).
      split.
      * destruct (shm_unlink_loop n _ w) as [[err|] w1]; simpl in *; exact Ht.
      * apply forallb_forall. intros e He. apply repeat_spec in He. now subst e.
  - exists []. simpl. now rewrite app_nil_r.
  - exists []. simpl. now rewrite app_nil_r.
Qed.

Lemma run_ops_no_munmap (n : nat) (ops : list handle_op) :
  forall (self : syscall_based_mmap) (w : world),
  exists d, trace (snd (run_ops n ops self w)) = (trace w ++ d)%list
            /\ forallb (fun e => negb (is_munmap e)) d = true.
Proof.
  induction ops as [|op rest IH]; intros self w; simpl.
  - exists []. simpl. now rewrite app_nil_r.
  - unfold bind. destruct (run_op_no_munmap n op self w) as (d1 & H1 & F1).
    destruct (run_op n op self w) as [[self1|] w1]; simpl in *.
    + destruct (IH self1 w1) as (d2 & H2 & F2).
      exists (d1 ++ d2)%list. rewrite H2, H1, app_assoc. split; [reflexivity|].
      rewrite forallb_app, F1, F2. reflexivity.
    + exists d1. now split.
Qed.

(** C10: [Close] closes the descriptor and sets the region to nil, and that
    is all it does; no call of [Close], [Unlink], [Slice] or [Name], in any
    number and order, issues [munmap]. *)
Theorem Close_never_unmaps (self : syscall_based_mmap) (w : world) :
  (trace (snd (Close self w)) = (trace w ++ [EvClose (Fd (f self))])%list
   /\ exists err, fst (Close self w) = Done (Handle (f self) None (unlinked self), err))
  /\ forall (n : nat) (ops : list handle_op) (self0 : syscall_based_mmap) (w0 : world),
       exists d, trace (snd (run_ops n ops self0 w0)) = (trace w0 ++ d)%list
                 /\ forallb (fun e => negb (is_munmap e)) d = true.
Proof.
  split.
  - rewrite Close_run. split; [reflexivity|]. eexists. reflexivity.
  - intros n ops self0 w0. apply run_ops_no_munmap.
Qed.

(** *** Composing what computations add to the trace *)

Lemma emits_ret {A} (P : event -> Prop) (a : A) : emits P (ret a).
Proof. intros w. exists []. simpl. rewrite app_nil_r. now split. Qed.

Lemma emits_spin {A} (P : event -> Prop) : emits P (@spin A).
Proof. intros w. exists []. simpl. rewrite app_nil_r. now split. Qed.

Lemma emits_bind {A B} (P : event -> Prop) (m : M A) (k : A -> M B) :
  emits P m -> (forall a, emits P (k a)) -> emits P (bind m k).
Proof.
  intros Hm Hk w. unfold bind. destruct (Hm w) as (d1 & H1 & F1).
  destruct (m w) as [[a|] w1]; simpl in *.
  - destruct (Hk a w1) as (d2 & H2 & F2).
    exists (d1 ++ d2)%list. rewrite H2, H1, app_assoc. split; [reflexivity|].
    apply Forall_app. now split.
  - exists d1. now split.
Qed.

Lemma emits_one {A} (P : event -> Prop) (e : event) (r : list event -> A) :
  P e -> emits P (fun w => (Done (r (trace w)), record_event e w)).
Proof. intros He w. exists [e]. simpl. split; [reflexivity|]. now constructor. Qed.

Lemma emits_rand (P : event -> Prop) : emits P rand_Uint32.
Proof. intros w. exists []. simpl. rewrite app_nil_r. now split. Qed.

Lemma emits_ftruncate_loop (P : event -> Prop) (n : nat) (fd size : Z) :
  P (EvFtruncate fd size) -> emits P (ftruncate_loop n fd size).
Proof.
  intros He. induction n as [|n IH]; simpl.
  - apply emits_spin.
  - apply emits_bind.
    + apply (emits_one P _ (fun h => k_ftruncate K h fd size)). exact He.
    + intros err. destruct (negb _); [apply emits_ret | exact IH].
Qed.

Lemma emits_shm_open_loop (P : event -> Prop) (n : nat) (bname : list byte) (flags perm : Z) :
  P (EvSyscall SYS_SHM_OPEN bname (uintptr flags) (uintptr perm)) ->
  emits P (shm_open_loop n bname flags perm).
Proof.
  intros He. induction n as [|n IH]; simpl.
  - apply emits_spin.
  - apply emits_bind.
    + apply (emits_one P _ (fun h => k_syscall K h SYS_SHM_OPEN bname
                                       (uintptr flags) (uintptr perm))). exact He.
    + intros [[fd r2] errno]. destruct (negb _); [apply emits_ret | exact IH].
Qed.

Lemma emits_shm_open (P : event -> Prop) (n : nat) (name : string) (flags perm : Z) :
  P (EvSyscall SYS_SHM_OPEN (BytePtrFromString name) (uintptr flags) (uintptr perm)) ->
  emits P (shm_open n name flags perm).
Proof.
  intros He. unfold shm_open. apply emits_bind.
  - now apply emits_shm_open_loop.
  - intros [fd [e|]]; apply emits_ret.
Qed.

Lemma emits_Close (P : event -> Prop) (file : File) :
  P (EvClose (Fd file)) -> emits P (File_Close file).
Proof. intros He. apply (emits_one P _ (fun h => k_close K h (Fd file))). exact He. Qed.

Lemma emits_Remove (P : event -> Prop) (path : string) :
  P (EvRemove path) -> emits P (os_Remove path).
Proof. intros He. apply (emits_one P _ (fun h => k_remove K h path)). exact He. Qed.

Lemma emits_mmap (P : event -> Prop) (sz : Z) (access : AccessFlags) (fd off : Z) :
  P (EvMmap fd off sz (mmap_prot access) (mmap_flags access)) ->
  emits P (mmap sz access fd off).
Proof.
  intros He. unfold mmap. apply emits_bind.
  - apply (emits_one P _ (fun h => k_mmap K h fd off sz (mmap_prot access) (mmap_flags access))).
    exact He.
  - intros [b [e|]]; apply emits_ret.
Qed.

Lemma emits_truncate_or_unlink (P : event -> Prop) (n : nat) (ans : File) (size : Z) :
  P (EvFtruncate (int (Fd ans)) (int64 size)) ->
  P (EvClose (Fd ans)) -> P (EvRemove (FileName ans)) ->
  emits P (truncate_or_unlink n ans size).
Proof.
  intros H1 H2 H3. unfold truncate_or_unlink. apply emits_bind.
  - now apply emits_ftruncate_loop.
  - intros [e|]; [|apply emits_ret].
    apply emits_bind; [now apply emits_Close|]. intros _.
    apply emits_bind; [now apply emits_Remove|]. intros _. apply emits_ret.
Qed.

Lemma emits_syscall_mmap (P : event -> Prop) (n : nat) (file : File) (size : Z)
  (access : AccessFlags) (truncate : bool) :
  P (EvFtruncate (int (Fd file)) (int64 size)) ->
  P (EvClose (Fd file)) -> P (EvRemove (FileName file)) ->
  P (EvMmap (int (Fd file)) 0 (int size) (mmap_prot access) (mmap_flags access)) ->
  emits P (syscall_mmap n file size access truncate).
Proof.
  intros H1 H2 H3 H4. unfold syscall_mmap. apply emits_bind.
  - destruct truncate; [now apply emits_truncate_or_unlink | apply emits_ret].
  - intros [e|]; [apply emits_ret|].
    apply emits_bind; [now apply emits_mmap|].
    intros [b [e|]]; [|apply emits_ret].
    apply emits_bind; [now apply emits_Close|]. intros _.
    apply emits_bind; [now apply emits_Remove|]. intros _. apply emits_ret.
Qed.

(** *** The mapper *)

(** C9: the mapper asks for a shared read-only mapping under [READ], a
    shared read-write mapping under [WRITE] and a private read-write mapping
    under [COPY], with the length and offset it is given; and every mapping
    that [syscall_mmap] asks for is at offset zero, of the length [int(size)]
    of its caller, on the descriptor of its file. *)
Theorem mmap_access_length_offset :
  (forall (sz : Z) (access : AccessFlags) (fd off : Z) (w : world),
      trace (snd (mmap sz access fd off w))
      = (trace w ++ [match access with
                     | READ => EvMmap fd off sz PROT_READ MAP_SHARED
                     | WRITE => EvMmap fd off sz (Z.lor PROT_READ PROT_WRITE) MAP_SHARED
                     | COPY => EvMmap fd off sz (Z.lor PROT_READ PROT_WRITE) MAP_PRIVATE
                     end])%list)
  /\ (forall (n : nat) (file : File) (size : Z) (access : AccessFlags) (truncate : bool),
         emits (fun e => forall fd off length prot flags,
                    e = EvMmap fd off length prot flags ->
                    fd = int (Fd file) /\ off = 0 /\ length = int size
                    /\ prot = mmap_prot access /\ flags = mmap_flags access)
               (syscall_mmap n file size access truncate)).
Proof.
  split.
  - intros sz access fd off w. unfold mmap, bind, unix_Mmap.
    destruct (k_mmap K (trace w) fd off sz (mmap_prot access) (mmap_flags access))
      as [b [e|]]; destruct access; reflexivity.
  - intros n file size access truncate.
    apply emits_syscall_mmap; intros fd off length prot flags E; try discriminate.
    injection E as <- <- <- <- <-. repeat split; reflexivity.
Qed.

(** *** Patterns *)

(** C6: a pattern with a path separator in it makes [CreateTemp] fail with
    [ErrPatternHasSeparator], leaving the trace and the random source as
    they were. *)
Theorem create_temp_separator (n : nat) (pattern : string) (size : Z) (w : world) :
  (exists i, String.get i pattern = Some "/"%char) ->
  CreateTemp n pattern size w = (Done (None, Some ErrPatternHasSeparator), w).
Proof.
  intros H. apply has_separator_get in H.
  unfold CreateTemp, create_temp, prefix_and_suffix. rewrite H. reflexivity.
Qed.

Lemma length_append (s t : string) :
  String.length (s ++ t) = (String.length s + String.length t)%nat.
Proof. induction s as [|c s IH]; simpl; [reflexivity | now rewrite IH]. Qed.

Lemma len_append (s t : string) : len (s ++ t) = len s + len t.
Proof. unfold len. rewrite length_append. lia. Qed.

Lemma format_hex_grows (n : nat) :
  forall (u : Z) (acc : string),
    (String.length acc <= String.length (format_hex n u acc))%nat.
Proof.
  induction n as [|n IH]; intros u acc; simpl; [lia|].
  destruct (u / 16 =? 0); simpl; [lia|].
  specialize (IH (u / 16) (String (hex_digit (u mod 16)) acc)). simpl in IH. lia.
Qed.

Lemma FormatUint16_nonempty (u : Z) : 1 <= len (FormatUint16 u).
Proof.
  unfold FormatUint16, len. simpl.
  destruct (uint64 u / 16 =? 0); simpl; [lia|].
  pose proof (format_hex_grows 15 (uint64 u / 16) (String (hex_digit (uint64 u mod 16)) "")) as H.
  simpl in H. lia.
Qed.

Lemma format_hex_bound (k : nat) :
  forall (n : nat) (u : Z) (acc : string),
    (0 < k <= n)%nat -> 0 <= u < 16 ^ Z.of_nat k ->
    (String.length (format_hex n u acc) <= String.length acc + k)%nat.
Proof.
  induction k as [|k IH]; intros n u acc Hk Hu; [lia|].
  destruct n as [|n]; [lia|]. simpl.
  destruct (u / 16 =? 0) eqn:E; simpl; [lia|].
  apply Z.eqb_neq in E.
  destruct k as [|k].
  - exfalso. apply E. apply Z.div_small. simpl in Hu. lia.
  - specialize (IH n (u / 16) (String (hex_digit (u mod 16)) acc)).
    simpl String.length in IH.
    assert (0 <= u / 16 < 16 ^ Z.of_nat (S k)).
    { split; [apply Z.div_pos; lia|].
      apply Z.div_lt_upper_bound; [lia|].
      replace (Z.of_nat (S (S k))) with (Z.of_nat (S k) + 1) in Hu by lia.
      rewrite Z.pow_add_r in Hu by lia. lia. }
    specialize (IH ltac:(lia) H). lia.
Qed.

(** A random suffix has between one and eight digits. *)
Lemma next_random_length (w : world) :
  exists rnd, next_random w = (Done rnd, World (trace w) (S (draws w)))
              /\ 1 <= len rnd <= 8.
Proof.
  unfold next_random, bind, rand_Uint32, ret. eexists. split; [reflexivity|].
  split; [apply FormatUint16_nonempty|].
  unfold FormatUint16, len.
  assert (Hr : 0 <= uint32 (k_rand K (draws w)) < 2 ^ 32)
    by (apply Z.mod_pos_bound; lia).
  set (r := uint32 (k_rand K (draws w))) in *.
  assert (Hu : uint64 (uint64 r) = r).
  { unfold uint64. rewrite Z.mod_mod by lia. apply Z.mod_small. lia. }
  rewrite Hu.
  pose proof (format_hex_bound 8 16 r "" ltac:(lia) ltac:(simpl; lia)) as H.
  change (String.length "") with O in H. lia.
Qed.

(** C3, as amended: when even the shortest candidate, the one with a
    one-digit random suffix, is longer than [SHM_NAME_MAX], [CreateTemp]
    fails with [ErrPatternTooLong] whatever value is drawn, having made no
    call to the system. *)
Theorem create_temp_too_long (n : nat) (pattern prefix suffix : string) (size : Z) (w : world) :
  prefix_and_suffix pattern = (prefix, suffix, None) ->
  len (with_required_prefix pattern prefix) + 1 + len suffix > SHM_NAME_MAX ->
  CreateTemp n pattern size w
  = (Done (None, Some ErrPatternTooLong), World (trace w) (S (draws w))).
Proof.
  intros Hp Hl. unfold CreateTemp, create_temp. rewrite Hp.
  set (p := with_required_prefix pattern prefix) in *.
  destruct (next_random_length w) as (rnd & Hr & Hlen & _).
  unfold bind at 1.
  destruct (Z.to_nat 10000) as [|left]; simpl; unfold bind at 1; rewrite Hr;
    rewrite !len_append;
    destruct (len p + (len rnd + len suffix) >? SHM_NAME_MAX) eqn:E; try reflexivity;
    rewrite Z.gtb_ltb in E; apply Z.ltb_ge in E; lia.
Qed.

(** *** The creation loop *)

Lemma create_loop_collision (n : nat) (p s : string) (left : nat) (try : Z) (w w1 : world) :
  collision n p s w = Some w1 -> try + 1 <= 10000 ->
  create_loop n p s (S left) try w = create_loop n p s left (try + 1) w1.
Proof.
  unfold collision. intros H Ht. cbn [create_loop]. unfold bind at 1.
  destruct (next_random w) as [[rnd|] w0]; [|discriminate].
  destruct (len (p ++ rnd ++ s) >? SHM_NAME_MAX); [discriminate|].
  unfold bind at 1. fold create_flags.
  destruct (shm_open n (p ++ rnd ++ s) create_flags 384 w0) as [[[file err]|] w2];
    [|discriminate].
  destruct (already_exists err); [|discriminate].
  injection H as ->.
  destruct (try + 1 >? 10000) eqn:E; [|reflexivity].
  rewrite Z.gtb_ltb in E. apply Z.ltb_lt in E. lia.
Qed.

Lemma create_loop_exhausted (n : nat) (p s : string) (left : nat) (try : Z) (w w1 : world) :
  collision n p s w = Some w1 -> try + 1 > 10000 ->
  create_loop n p s left try w
  = (Done (Return None (Some (PathError "createtemp" (p ++ "*" ++ s) ErrExist))), w1).
Proof.
  unfold collision. intros H Ht.
  assert (E : (try + 1 >? 10000) = true)
    by (rewrite Z.gtb_ltb; apply Z.ltb_lt; lia).
  destruct left; cbn [create_loop]; unfold bind at 1;
    (destruct (next_random w) as [[rnd|] w0]; [|discriminate]);
    (destruct (len (p ++ rnd ++ s) >? SHM_NAME_MAX); [discriminate|]);
    unfold bind at 1; fold create_flags;
    (destruct (shm_open n (p ++ rnd ++ s) create_flags 384 w0) as [[[file err]|] w2];
       [|discriminate]);
    (destruct (already_exists err); [|discriminate]);
    injection H as ->; rewrite E; reflexivity.
Qed.

Lemma create_loop_break (n : nat) (p s : string) (left : nat) (try : Z)
  (w w1 w2 : world) (rnd : string) (file : option File) (err : option error) :
  next_random w = (Done rnd, w1) ->
  len (p ++ rnd ++ s) <= SHM_NAME_MAX ->
  shm_open n (p ++ rnd ++ s) create_flags 384 w1 = (Done (file, err), w2) ->
  already_exists err = false ->
  create_loop n p s left try w = (Done (Break file err), w2).
Proof.
  intros Hr Hl Ho He.
  assert (E : (len (p ++ rnd ++ s) >? SHM_NAME_MAX) = false)
    by (rewrite Z.gtb_ltb; apply Z.ltb_ge; lia).
  destruct left; cbn [create_loop]; unfold bind at 1; rewrite Hr, E;
    unfold bind at 1; fold create_flags; rewrite Ho, He; reflexivity.
Qed.

Lemma create_loop_collisions (n : nat) (p s : string) (k : nat) :
  forall (left : nat) (try : Z) (w wk : world),
    collisions k n p s w = Some wk ->
    try + Z.of_nat k <= 10000 ->
    create_loop n p s (k + left) try w = create_loop n p s left (try + Z.of_nat k) wk.
Proof.
  induction k as [|k IH]; intros left try w wk H Ht.
  - simpl in H. injection H as ->. simpl. now rewrite Z.add_0_r.
  - simpl in H. destruct (collision n p s w) as [w1|] eqn:E; [|discriminate].
    change (S k + left)%nat with (S (k + left)).
    rewrite (create_loop_collision n p s (k + left) try w w1 E) by lia.
    rewrite (IH left (try + 1) w1 wk H) by lia.
    f_equal. lia.
Qed.

Lemma collisions_last (n : nat) (p s : string) (k : nat) :
  forall (w wk : world),
    collisions (S k) n p s w = Some wk ->
    exists w', collisions k n p s w = Some w' /\ collision n p s w' = Some wk.
Proof.
  induction k as [|k IH]; intros w wk H.
  - simpl in H. destruct (collision n p s w) as [w1|] eqn:E; [|discriminate].
    injection H as ->. exists w. now split.
  - change (collisions (S (S k)) n p s w)
      with (match collision n p s w with
            | Some w1 => collisions (S k) n p s w1
            | None => None
            end) in H.
    destruct (collision n p s w) as [w1|] eqn:E; [|discriminate].
    destruct (IH w1 wk H) as (w' & H1 & H2).
    exists w'. split; [|exact H2]. simpl. now rewrite E.
Qed.

Lemma shm_open_loop_draws (n : nat) (bname : list byte) (flags perm : Z) :
  forall w, draws (snd (shm_open_loop n bname flags perm w)) = draws w.
Proof.
  induction n as [|n IH]; intros w; [reflexivity|].
  simpl. unfold bind, unix_Syscall.
  destruct (k_syscall K (trace w) SYS_SHM_OPEN bname (uintptr flags) (uintptr perm))
    as [[fd r2] errno].
  destruct (negb (errno =? EINTR)); [reflexivity|].
  now rewrite IH.
Qed.

Lemma shm_open_draws (n : nat) (name : string) (flags perm : Z) (w : world) :
  draws (snd (shm_open n name flags perm w)) = draws w.
Proof.
  unfold shm_open, bind.
  pose proof (shm_open_loop_draws n (BytePtrFromString name) flags perm w) as H.
  destruct (shm_open_loop n (BytePtrFromString name) flags perm w) as [[[fd [e|]]|] w1];
    exact H.
Qed.

(** Every turn that finds the candidate taken has drawn one value. *)
Lemma collision_draws (n : nat) (p s : string) (w w1 : world) :
  collision n p s w = Some w1 -> draws w1 = S (draws w).
Proof.
  unfold collision. destruct (next_random_length w) as (rnd & Hr & _). rewrite Hr.
  destruct (len (p ++ rnd ++ s) >? SHM_NAME_MAX); [discriminate|].
  pose proof (shm_open_draws n (p ++ rnd ++ s) create_flags 384
                (World (trace w) (S (draws w)))) as H.
  destruct (shm_open n (p ++ rnd ++ s) create_flags 384 (World (trace w) (S (draws w))))
    as [[[file err]|] w2]; [|discriminate].
  destruct (already_exists err); [|discriminate].
  intros E. injection E as <-. exact H.
Qed.

Lemma collisions_draws (n : nat) (p s : string) (k : nat) :
  forall w wk, collisions k n p s w = Some wk -> draws wk = (draws w + k)%nat.
Proof.
  induction k as [|k IH]; intros w wk H; simpl in H.
  - injection H as <-. lia.
  - destruct (collision n p s w) as [w1|] eqn:E; [|discriminate].
    rewrite (IH w1 wk H), (collision_draws n p s w w1 E). lia.
Qed.

(** C4: after 10001 turns in a row that find the candidate taken, each with
    a name drawn anew, [CreateTemp] fails with the exhaustion error, whose
    path is the prefix in use, a star and the suffix; and when, after at most
    10000 such turns, creation fails with an error that is not "already
    exists", [CreateTemp] returns that error at once, the world being the one
    that failing attempt left.  The 10001 turns have drawn 10001 values. *)
Theorem create_temp_retry_policy (n : nat) (pattern prefix suffix : string) (size : Z)
  (w : world) :
  prefix_and_suffix pattern = (prefix, suffix, None) ->
  (forall wk,
      collisions (Z.to_nat 10001) n (with_required_prefix pattern prefix) suffix w = Some wk ->
      CreateTemp n pattern size w
      = (Done (None, Some (PathError "createtemp"
                             (with_required_prefix pattern prefix ++ "*" ++ suffix)
                             ErrExist)), wk)
      /\ draws wk = (draws w + Z.to_nat 10001)%nat)
  /\ (forall (k : nat) (wk w1 w2 : world) (rnd : string) (file : option File) (e : error),
         (k <= Z.to_nat 10000)%nat ->
         collisions k n (with_required_prefix pattern prefix) suffix w = Some wk ->
         next_random wk = (Done rnd, w1) ->
         len (with_required_prefix pattern prefix ++ rnd ++ suffix) <= SHM_NAME_MAX ->
         shm_open n (with_required_prefix pattern prefix ++ rnd ++ suffix) create_flags 384 w1
         = (Done (file, Some e), w2) ->
         already_exists (Some e) = false ->
         CreateTemp n pattern size w = (Done (None, Some e), w2)).
Proof.
  intros Hp. unfold CreateTemp, create_temp. rewrite Hp.
  set (p := with_required_prefix pattern prefix). split.
  - intros wk H. split; [|exact (collisions_draws n p suffix _ w wk H)].
    replace (Z.to_nat 10001) with (S (Z.to_nat 10000)) in H by lia.
    destruct (collisions_last n p suffix _ w wk H) as (w' & H1 & H2).
    unfold bind.
    replace (Z.to_nat 10000) with (Z.to_nat 10000 + 0)%nat at 1 by lia.
    rewrite (create_loop_collisions n p suffix _ 0%nat 0 w w' H1) by lia.
    rewrite (create_loop_exhausted n p suffix 0%nat _ w' wk H2) by lia.
    reflexivity.
  - intros k wk w1 w2 rnd file e Hk H Hr Hl Ho He.
    unfold bind.
    replace (Z.to_nat 10000) with (k + (Z.to_nat 10000 - k))%nat by lia.
    rewrite (create_loop_collisions n p suffix k _ 0 w wk H) by lia.
    rewrite (create_loop_break n p suffix _ _ wk w1 w2 rnd file (Some e) Hr Hl Ho He).
    reflexivity.
Qed.

(** *** Failure after creation *)

Lemma syscall_mmap_truncate_fails (n : nat) (file : File) (size : Z) (access : AccessFlags)
  (w w2 : world) (e : error) :
  ftruncate_loop n (int (Fd file)) (int64 size) w = (Done (Some e), w2) ->
  syscall_mmap n file size access true w
  = (Done (None,
           Some (Errorf "truncate failed with error: %w" []
                   (Errorf "Failed to ftruncate() SHM file %s to size: %d with error: %w"
                      [ArgString (FileName file); ArgUint size] e))),
     World (trace w2 ++ [EvClose (Fd file); EvRemove (FileName file)])%list (draws w2)).
Proof.
  intros H. unfold syscall_mmap, truncate_or_unlink, bind. rewrite H.
  unfold File_Close, os_Remove, record_event, ret. simpl.
  now rewrite <- app_assoc.
Qed.

Lemma syscall_mmap_mmap_fails (n : nat) (file : File) (size : Z) (access : AccessFlags)
  (w w2 : world) (b : byte_slice) (e : error) :
  ftruncate_loop n (int (Fd file)) (int64 size) w = (Done None, w2) ->
  k_mmap K (trace w2) (int (Fd file)) 0 (int size) (mmap_prot access) (mmap_flags access)
  = (b, Some e) ->
  syscall_mmap n file size access true w
  = (Done (None, Some (Errorf "mmap failed with error: %w" [] e)),
     World (trace w2 ++ [EvMmap (int (Fd file)) 0 (int size) (mmap_prot access)
                           (mmap_flags access);
                         EvClose (Fd file); EvRemove (FileName file)])%list (draws w2)).
Proof.
  intros H Hm. unfold syscall_mmap, truncate_or_unlink, bind. rewrite H.
  unfold ret at 1. unfold mmap, bind, unix_Mmap. rewrite Hm.
  unfold File_Close, os_Remove, record_event, ret. simpl.
  now rewrite <- !app_assoc.
Qed.

(** C2, as amended: when exclusive creation has succeeded and truncation or
    mapping then fails, [CreateTemp] closes the descriptor after the failing
    call and returns a wrapped error.  For a failed truncation the error
    carries the name of the object and the size asked for; for a failed
    mapping it wraps the cause alone. *)
Theorem create_temp_failure_after_creation (n : nat) (pattern prefix suffix : string)
  (size : Z) (w w1 : world) (file : File) :
  prefix_and_suffix pattern = (prefix, suffix, None) ->
  create_loop n (with_required_prefix pattern prefix) suffix (Z.to_nat 10000) 0 w
  = (Done (Break (Some file) None), w1) ->
  (forall (e : error) (w2 : world),
      ftruncate_loop n (int (Fd file)) (int64 size) w1 = (Done (Some e), w2) ->
      exists w3 rest,
        CreateTemp n pattern size w
        = (Done (None,
                 Some (Errorf "truncate failed with error: %w" []
                         (Errorf "Failed to ftruncate() SHM file %s to size: %d with error: %w"
                            [ArgString (FileName file); ArgUint size] e))), w3)
        /\ trace w3 = (trace w2 ++ EvClose (Fd file) :: rest)%list)
  /\ (forall (e : error) (b : byte_slice) (w2 : world),
         ftruncate_loop n (int (Fd file)) (int64 size) w1 = (Done None, w2) ->
         k_mmap K (trace w2) (int (Fd file)) 0 (int size)
           (Z.lor PROT_READ PROT_WRITE) MAP_SHARED = (b, Some e) ->
         exists w3 rest,
           CreateTemp n pattern size w
           = (Done (None, Some (Errorf "mmap failed with error: %w" [] e)), w3)
           /\ trace w3
              = (trace w2 ++ EvMmap (int (Fd file)) 0 (int size)
                               (Z.lor PROT_READ PROT_WRITE) MAP_SHARED
                             :: EvClose (Fd file) :: rest)%list).
Proof.
  intros Hp Hl.
  assert (Hc : CreateTemp n pattern size w = syscall_mmap n file size RDWR true w1).
  { unfold CreateTemp, create_temp. rewrite Hp. unfold bind at 1. now rewrite Hl. }
  rewrite Hc. split.
  - intros e w2 H. eexists _, _. split.
    + apply (syscall_mmap_truncate_fails n file size RDWR w1 w2 e H).
    + reflexivity.
  - intros e b w2 H Hm. eexists _, _. split.
    + apply (syscall_mmap_mmap_fails n file size RDWR w1 w2 b e H Hm).
    + reflexivity.
Qed.

(** *** Opening an object by name *)

Lemma shm_open_file (n : nat) (name : string) (flags perm : Z) (w w1 : world) (file : File) :
  shm_open n name flags perm w = (Done (Some file, None), w1) -> FileName file = name.
Proof.
  unfold shm_open, bind.
  destruct (shm_open_loop n (BytePtrFromString name) flags perm w) as [[[fd [e|]]|] w'];
    simpl; intros H; try discriminate.
  injection H as <- _. reflexivity.
Qed.

Lemma emits_Open (P : event -> Prop) (n : nat) (name : string) :
  P (EvSyscall SYS_SHM_OPEN (BytePtrFromString name) O_RDONLY 0) ->
  (forall e, (forall trap a1 a2 a3, e <> EvSyscall trap a1 a2 a3) -> P e) ->
  emits P (Open n name).
Proof.
  intros Ho Hrest. unfold Open. apply emits_bind.
  - apply emits_shm_open. exact Ho.
  - intros [[file|] [e|]]; try apply emits_ret.
    apply emits_bind.
    + apply (emits_one P _ (fun h => let '(size, err) := k_stat K h name in (int64 size, err))).
      apply Hrest. discriminate.
    + intros [s [e|]].
      * apply emits_bind; [|intros _; apply emits_ret].
        apply emits_Close. apply Hrest. discriminate.
      * apply emits_syscall_mmap; apply Hrest; discriminate.
Qed.

Lemma Open_stat_fails (n : nat) (name : string) (w w1 : world) (file : File)
  (s : Z) (e : error) :
  shm_open n name O_RDONLY 0 w = (Done (Some file, None), w1) ->
  k_stat K (trace w1) name = (s, Some e) ->
  Open n name w
  = (Done (None, Some e), World (trace w1 ++ [EvStat name; EvClose (Fd file)])%list (draws w1)).
Proof.
  intros H Hs. unfold Open. unfold bind at 1. rewrite H.
  unfold bind at 1. unfold os_Stat. rewrite Hs.
  unfold File_Close, bind, record_event, ret. simpl. now rewrite <- app_assoc.
Qed.

Lemma Open_stat_succeeds (n : nat) (name : string) (w w1 : world) (file : File) (s : Z) :
  shm_open n name O_RDONLY 0 w = (Done (Some file, None), w1) ->
  k_stat K (trace w1) name = (s, None) ->
  Open n name w
  = syscall_mmap n file (uint64 (int64 s)) READ false (record_event (EvStat name) w1).
Proof.
  intros H Hs. unfold Open. unfold bind at 1. rewrite H.
  unfold bind at 1. unfold os_Stat. now rewrite Hs.
Qed.

Lemma syscall_mmap_no_truncate (n : nat) (file : File) (size : Z) (access : AccessFlags)
  (w : world) :
  syscall_mmap n file size access false w
  = match k_mmap K (trace w) (int (Fd file)) 0 (int size)
            (mmap_prot access) (mmap_flags access) with
    | (b, None) =>
        (Done (Some (Handle file b false), None),
         World (trace w ++ [EvMmap (int (Fd file)) 0 (int size)
                              (mmap_prot access) (mmap_flags access)])%list (draws w))
    | (b, Some e) =>
        (Done (None, Some (Errorf "mmap failed with error: %w" [] e)),
         World (trace w ++ [EvMmap (int (Fd file)) 0 (int size)
                              (mmap_prot access) (mmap_flags access);
                            EvClose (Fd file); EvRemove (FileName file)])%list (draws w))
    end.
Proof.
  unfold syscall_mmap. unfold bind at 1. unfold ret at 1.
  unfold mmap, bind, unix_Mmap.
  destruct (k_mmap K (trace w) (int (Fd file)) 0 (int size)
              (mmap_prot access) (mmap_flags access)) as [b [e|]].
  - unfold File_Close, os_Remove, record_event, ret. simpl. now rewrite <- !app_assoc.
  - reflexivity.
Qed.

(** C5: every trap [Open] issues is the open trap on the given name with
    flags [O_RDONLY], in which the creation bit is clear.  Once the object is
    open, [Open] asks [os.Stat] for it; if that fails it closes the
    descriptor and returns the error of the query; if it succeeds the next
    call maps the descriptor at offset zero for the size reported, read-only
    and shared, and when the mapping succeeds the handle of the file and the
    region is returned. *)
Theorem Open_read_only (n : nat) (name : string) (w : world) :
  emits (fun e => forall trap a1 a2 a3,
             e = EvSyscall trap a1 a2 a3 ->
             trap = SYS_SHM_OPEN /\ a1 = BytePtrFromString name /\ a2 = O_RDONLY
             /\ Z.land a2 O_CREATE = 0 /\ Z.land a2 O_ACCMODE = O_RDONLY)
        (Open n name)
  /\ forall (file : File) (w1 : world),
       shm_open n name O_RDONLY 0 w = (Done (Some file, None), w1) ->
       FileName file = name
       /\ match k_stat K (trace w1) name with
          | (s, Some e) =>
              Open n name w
              = (Done (None, Some e),
                 World (trace w1 ++ [EvStat name; EvClose (Fd file)])%list (draws w1))
          | (s, None) =>
              (exists rest,
                  trace (snd (Open n name w))
                  = (trace w1 ++ EvStat name
                       :: EvMmap (int (Fd file)) 0 (int64 s) PROT_READ MAP_SHARED
                       :: rest)%list)
              /\ forall b,
                   k_mmap K (trace w1 ++ [EvStat name])%list (int (Fd file)) 0 (int64 s)
                     PROT_READ MAP_SHARED = (b, None) ->
                   Open n name w
                   = (Done (Some (Handle file b false), None),
                      World (trace w1 ++ [EvStat name;
                                          EvMmap (int (Fd file)) 0 (int64 s)
                                            PROT_READ MAP_SHARED])%list (draws w1))
          end.
Proof.
  split.
  - apply emits_Open.
    + intros trap a1 a2 a3 E. injection E as <- <- <- <-. repeat split; reflexivity.
    + intros e He trap a1 a2 a3 E. exfalso. exact (He _ _ _ _ E).
  - intros file w1 H. split; [exact (shm_open_file _ _ _ _ _ _ _ H)|].
    destruct (k_stat K (trace w1) name) as [s [e|]] eqn:Hs.
    + exact (Open_stat_fails n name w w1 file s e H Hs).
    + rewrite (Open_stat_succeeds n name w w1 file s H Hs).
      rewrite syscall_mmap_no_truncate.
      change (int (uint64 (int64 s))) with (int64 (uint64 (int64 s))).
      rewrite !int64_uint64.
      cbn [record_event trace draws mmap_prot mmap_flags].
      split.
      * destruct (k_mmap K (trace w1 ++ [EvStat name])%list (int (Fd file)) 0 (int64 s)
                    PROT_READ MAP_SHARED) as [b [e|]];
          cbn [snd trace]; rewrite <- app_assoc; eexists; reflexivity.
      * intros b Hb. rewrite Hb. now rewrite <- app_assoc.
Qed.


(** ** Further properties of the package *)

(** *** Name buffers *)

Lemma list_byte_of_string_length (s : string) :
  List.length (list_byte_of_string s) = String.length s.
Proof.
  unfold list_byte_of_string. rewrite length_map.
  induction s as [|c s IH]; simpl; [reflexivity | now rewrite IH].
Qed.

(** X1: the buffer [ByteSliceFromString] makes is one byte longer than the
    string, ends in a zero byte, and without that byte reads back as the
    string. *)
Theorem ByteSliceFromString_zero_terminated (s : string) :
  List.length (ByteSliceFromString s) = S (String.length s)
  /\ last (ByteSliceFromString s) x01 = x00
  /\ string_of_list_byte (removelast (ByteSliceFromString s)) = s.
Proof.
  unfold ByteSliceFromString. split; [|split].
  - rewrite length_app, list_byte_of_string_length. simpl. lia.
  - apply last_last.
  - rewrite removelast_last. apply string_of_list_byte_of_string.
Qed.

(** *** Splitting a pattern *)

Lemma has_separator_true (pattern : string) :
  has_separator pattern = true -> exists i, String.get i pattern = Some "/"%char.
Proof.
  induction pattern as [|c rest IH]; simpl; [discriminate|].
  unfold IsPathSeparator. destruct (Ascii.eqb c "/") eqn:E.
  - intros _. exists 0%nat. simpl. apply Ascii.eqb_eq in E. now subst c.
  - intros H. destruct (IH H) as [i Hi]. now exists (S i).
Qed.

(** X2: [prefix_and_suffix] fails exactly on the patterns that hold a [/],
    and then with [ErrPatternHasSeparator] and an empty prefix and suffix. *)
Theorem prefix_and_suffix_fails_iff_separator (pattern : string) :
  ((exists i, String.get i pattern = Some "/"%char)
   <-> prefix_and_suffix pattern = ("", "", Some ErrPatternHasSeparator))
  /\ ((forall i, String.get i pattern <> Some "/"%char)
      <-> snd (prefix_and_suffix pattern) = None).
Proof.
  unfold prefix_and_suffix. split; split.
  - intros H. now rewrite (has_separator_get pattern H).
  - destruct (has_separator pattern) eqn:E; [intros _; now apply has_separator_true|].
    destruct (negb _); discriminate.
  - intros H. destruct (has_separator pattern) eqn:E.
    + destruct (has_separator_true pattern E) as [i Hi]. now destruct (H i).
    + destruct (negb _); reflexivity.
  - destruct (has_separator pattern) eqn:E; [discriminate|].
    intros _ i Hi. rewrite (has_separator_get pattern) in E; [discriminate|].
    now exists i.
Qed.

Lemma substring_whole (s : string) : substring 0 (String.length s) s = s.
Proof. induction s as [|c s IH]; simpl; [reflexivity | now rewrite IH]. Qed.

(** Where [LastIndexByte_from] points: nowhere when the byte does not occur,
    else at an occurrence that splits the string and has none after it. *)
Lemma LastIndexByte_from_split (c : ascii) (s : string) :
  forall i : Z,
    0 <= i ->
    let r := LastIndexByte_from i s c in
    (r = -1 /\ forall j, String.get j s <> Some c)
    \/ (exists k : nat,
           r = i + Z.of_nat k
           /\ (k < String.length s)%nat
           /\ s = substring 0 k s
                  ++ String c (substring (S k) (String.length s - S k) s)
           /\ forall j, String.get j (substring (S k) (String.length s - S k) s) <> Some c).
Proof.
  induction s as [|a rest IH]; intros i Hi; simpl.
  - left. split; [reflexivity|]. intros j. destruct j; discriminate.
  - specialize (IH (i + 1) ltac:(lia)). simpl in IH.
    destruct IH as [[Hr Hno] | (k & Hr & Hk & Hs & Hno)].
    + rewrite Hr. simpl. destruct (Ascii.eqb a c) eqn:E.
      * right. exists 0%nat. apply Ascii.eqb_eq in E. subst a. simpl.
        rewrite Nat.sub_0_r, substring_whole. repeat split; [lia | lia | exact Hno].
      * left. split; [reflexivity|]. intros [|j]; simpl.
        -- intros H. injection H as ->. now rewrite Ascii.eqb_refl in E.
        -- apply Hno.
    + rewrite Hr. destruct (i + 1 + Z.of_nat k =? -1) eqn:E;
        [apply Z.eqb_eq in E; lia|].
      right. exists (S k). simpl. split; [lia|]. split; [lia|]. split; [|exact Hno].
      f_equal. exact Hs.
Qed.

Lemma substring_prefix_length (s : string) :
  forall k : nat, (k <= String.length s)%nat -> String.length (substring 0 k s) = k.
Proof.
  induction s as [|c s IH]; intros [|k] Hk; simpl in *; try lia.
  rewrite IH; lia.
Qed.

(** X3: on a pattern without [/], [prefix_and_suffix] splits at the last
    star: a pattern with a star is the prefix, a star and the suffix, and the
    suffix holds no star; a pattern without one is all prefix. *)
Theorem prefix_and_suffix_splits_at_last_star (pattern prefix suffix : string) :
  prefix_and_suffix pattern = (prefix, suffix, None) ->
  ((exists i, String.get i pattern = Some "*"%char) ->
   pattern = prefix ++ "*" ++ suffix
   /\ forall j, String.get j suffix <> Some "*"%char)
  /\ ((forall i, String.get i pattern <> Some "*"%char) ->
      prefix = pattern /\ suffix = "").
Proof.
  unfold prefix_and_suffix, LastIndexByte, slice_to, slice_from.
  destruct (has_separator pattern); [discriminate|].
  pose proof (LastIndexByte_from_split "*"%char pattern 0 ltac:(lia)) as H.
  cbv zeta in H.
  destruct H as [[Hr Hno] | (k & Hr & Hk & Hs & Hno)]; rewrite Hr.
  - simpl. intros E. injection E as <- <-. split.
    + intros [i Hi]. now destruct (Hno i).
    + intros _. now split.
  - destruct (0 + Z.of_nat k =? -1) eqn:E; [apply Z.eqb_eq in E; lia|].
    simpl negb. cbv iota.
    replace (Z.to_nat (0 + Z.of_nat k)) with k by lia.
    replace (Z.to_nat (0 + Z.of_nat k + 1)) with (S k) by lia.
    intros E'. injection E' as <- <-. split.
    + intros _. split; [exact Hs | exact Hno].
    + intros Hnone. exfalso. apply (Hnone k). rewrite Hs.
      pose proof (append_correct2 (substring 0 k pattern)
                    (String "*" (substring (S k) (String.length pattern - S k) pattern))
                    0) as H.
      rewrite substring_prefix_length in H by lia. simpl in H. now rewrite <- H.
Qed.


(** *** Random suffixes *)

Lemma hex_digit_cases (d : Z) :
  0 <= d < 16 ->
  is_lower_hex (hex_digit d) = true /\ hex_digit_value (hex_digit d) = d.
Proof.
  intros H.
  assert (E : exists n : nat, (n < 16)%nat /\ d = Z.of_nat n)
    by (exists (Z.to_nat d); lia).
  destruct E as (n & Hn & ->).
  do 16 (destruct n as [|n]; [split; reflexivity|]). lia.
Qed.

Lemma format_hex_all_hex (n : nat) :
  forall (u : Z) (acc : string),
    all_chars is_lower_hex acc = true ->
    all_chars is_lower_hex (format_hex n u acc) = true.
Proof.
  induction n as [|n IH]; intros u acc Hacc; simpl; [exact Hacc|].
  assert (Hd : all_chars is_lower_hex (String (hex_digit (u mod 16)) acc) = true).
  { simpl. rewrite Hacc, andb_true_r.
    apply hex_digit_cases. apply Z.mod_pos_bound. lia. }
  destruct (u / 16 =? 0); [exact Hd | now apply IH].
Qed.

Lemma all_chars_get (p : ascii -> bool) (s : string) :
  all_chars p s = true -> forall i c, String.get i s = Some c -> p c = true.
Proof.
  induction s as [|a s IH]; simpl; intros H i c Hi.
  - destruct i; discriminate.
  - apply andb_true_iff in H. destruct H as [Ha Hs]. destruct i as [|i].
    + injection Hi as <-. exact Ha.
    + exact (IH Hs i c Hi).
Qed.

(** X4: [next_random] makes no call to the system; what it returns is the
    hexadecimal rendering of the value drawn: one to eight characters, each
    of them a digit or a letter from [a] to [f], so that no [/] and no star
    comes in with it. *)
Theorem next_random_lower_hex (w : world) :
  next_random w = (Done (suffix_of_draw (draws w)), World (trace w) (S (draws w)))
  /\ 1 <= len (suffix_of_draw (draws w)) <= 8
  /\ all_chars is_lower_hex (suffix_of_draw (draws w)) = true
  /\ forall i, String.get i (suffix_of_draw (draws w)) <> Some "/"%char
               /\ String.get i (suffix_of_draw (draws w)) <> Some "*"%char.
Proof.
  assert (Hall : all_chars is_lower_hex (suffix_of_draw (draws w)) = true)
    by (apply format_hex_all_hex; reflexivity).
  split; [reflexivity|]. split; [|split; [exact Hall|]].
  - destruct (next_random_length w) as (rnd & Hr & Hl).
    unfold next_random, bind, rand_Uint32, ret in Hr. injection Hr as <-. exact Hl.
  - intros i. split; intros Hi;
      pose proof (all_chars_get _ _ Hall i _ Hi) as Hc; discriminate.
Qed.

Lemma hex_value_from_format_hex (n : nat) :
  forall (u : Z) (acc : string),
    0 <= u < 16 ^ Z.of_nat n ->
    hex_value_from 0 (format_hex n u acc) = hex_value_from u acc.
Proof.
  induction n as [|n IH]; intros u acc Hu.
  - simpl in *. now replace u with 0 by lia.
  - cbn [format_hex].
    assert (Hm : 0 <= u mod 16 < 16) by (apply Z.mod_pos_bound; lia).
    assert (Hstep : hex_value_from (u / 16) (String (hex_digit (u mod 16)) acc)
                    = hex_value_from u acc).
    { cbn [hex_value_from]. rewrite (proj2 (hex_digit_cases _ Hm)).
      f_equal. pose proof (Z.div_mod u 16 ltac:(lia)). lia. }
    destruct (u / 16 =? 0) eqn:E.
    + apply Z.eqb_eq in E. rewrite <- Hstep, E. reflexivity.
    + rewrite IH; [exact Hstep|].
      split; [apply Z.div_pos; lia|].
      apply Z.div_lt_upper_bound; [lia|].
      replace (Z.of_nat (S n)) with (Z.of_nat n + 1) in Hu by lia.
      rewrite Z.pow_add_r in Hu by lia. lia.
Qed.

(** X5: the hexadecimal rendering reads back as the number rendered, so two
    numbers have the same rendering only when they are equal as [uint64]; two
    draws give the same suffix exactly when they are equal as [uint32]. *)
Theorem FormatUint16_reads_back (u : Z) :
  hex_value (FormatUint16 u) = uint64 u
  /\ (forall v, FormatUint16 u = FormatUint16 v <-> uint64 u = uint64 v)
  /\ (forall d1 d2 : nat,
         suffix_of_draw d1 = suffix_of_draw d2
         <-> uint32 (k_rand K d1) = uint32 (k_rand K d2)).
Proof.
  assert (R : forall x, hex_value (FormatUint16 x) = uint64 x).
  { intros x. unfold hex_value, FormatUint16.
    rewrite hex_value_from_format_hex; [reflexivity|].
    unfold uint64. change (16 ^ Z.of_nat 16) with (2 ^ 64).
    apply Z.mod_pos_bound. lia. }
  split; [apply R|]. split.
  - intros v. split; intros H.
    + rewrite <- (R u), <- (R v). now rewrite H.
    + unfold FormatUint16. now rewrite H.
  - intros d1 d2. unfold suffix_of_draw. split; intros H.
    + apply (f_equal hex_value) in H. rewrite !R in H.
      assert (B : forall x, uint64 (uint64 (uint32 x)) = uint32 x).
      { intros x. unfold uint64, uint32.
        pose proof (Z.mod_pos_bound x (2 ^ 32) ltac:(lia)) as Hb.
        set (m := x mod 2 ^ 32) in *.
        rewrite (Z.mod_small m (2 ^ 64)) by lia.
        apply Z.mod_small. lia. }
      now rewrite !B in H.
    + now rewrite H.
Qed.

(** *** Opening by trap *)




(** *** Interrupted calls *)

Lemma shm_open_loop_interrupted (k : nat) (bname : list byte) (flags perm : Z) :
  forall (n : nat) (w : world) (fd r2 errno : Z),
    (forall j, (j < k)%nat ->
               snd (k_syscall K
                      (trace w ++ repeat (EvSyscall SYS_SHM_OPEN bname (uintptr flags)
                                            (uintptr perm)) j)%list
                      SYS_SHM_OPEN bname (uintptr flags) (uintptr perm)) = EINTR) ->
    k_syscall K
      (trace w ++ repeat (EvSyscall SYS_SHM_OPEN bname (uintptr flags) (uintptr perm)) k)%list
      SYS_SHM_OPEN bname (uintptr flags) (uintptr perm)
    = (fd, r2, errno) ->
    errno <> EINTR -> (k < n)%nat ->
    shm_open_loop n bname flags perm w
    = (Done (fd, if negb (errno =? 0)
                 then Some (Errorf "shm_open() failed with error: %w" [] (Errno errno))
                 else None),
       World (trace w ++ repeat (EvSyscall SYS_SHM_OPEN bname (uintptr flags)
                                   (uintptr perm)) (S k))%list (draws w)).
Proof.
  induction k as [|k IH]; intros n w fd r2 errno Hint Hlast Hne Hn;
    (destruct n as [|n]; [lia|]); cbn [shm_open_loop]; unfold bind, unix_Syscall.
  - simpl in Hlast. rewrite app_nil_r in Hlast. rewrite Hlast.
    apply Z.eqb_neq in Hne. rewrite Hne. reflexivity.
  - pose proof (Hint 0%nat ltac:(lia)) as H0. simpl in H0. rewrite app_nil_r in H0.
    destruct (k_syscall K (trace w) SYS_SHM_OPEN bname (uintptr flags) (uintptr perm))
      as [[r1 r2'] e0]. simpl in H0. subst e0. simpl.
    rewrite (IH n (record_event (EvSyscall SYS_SHM_OPEN bname (uintptr flags)
                                   (uintptr perm)) w) fd r2 errno).
    + unfold record_event. simpl. now rewrite <- app_assoc.
    + intros j Hj. unfold record_event. cbn [trace]. rewrite snoc_repeat.
      apply Hint. lia.
    + unfold record_event. cbn [trace]. rewrite snoc_repeat. exact Hlast.
    + exact Hne.
    + lia.
Qed.

(** X7: [shm_open] repeats its trap, with the same arguments, as long as
    the answer is [EINTR].  If the first [k] answers are [EINTR] and the next
    one is not, then with room for more than [k] turns it returns after
    [k + 1] traps: the file of the descriptor returned, under the given name,
    when the errno is 0, and the wrapped errno otherwise. *)
Theorem shm_open_repeats_while_interrupted (n k : nat) (name : string) (flags perm : Z)
  (w : world) (fd r2 errno : Z) :
  let ev := EvSyscall SYS_SHM_OPEN (BytePtrFromString name) (uintptr flags) (uintptr perm) in
  (forall j, (j < k)%nat ->
             snd (k_syscall K (trace w ++ repeat ev j)%list SYS_SHM_OPEN
                    (BytePtrFromString name) (uintptr flags) (uintptr perm)) = EINTR) ->
  k_syscall K (trace w ++ repeat ev k)%list SYS_SHM_OPEN (BytePtrFromString name)
    (uintptr flags) (uintptr perm) = (fd, r2, errno) ->
  errno <> EINTR -> (k < n)%nat ->
  shm_open n name flags perm w
  = (Done (if errno =? 0
           then (Some (NewFile fd name), None)
           else (None, Some (Errorf "shm_open() failed with error: %w" [] (Errno errno)))),
     World (trace w ++ repeat ev (S k))%list (draws w)).
Proof.
  intros ev Hint Hlast Hne Hn. unfold shm_open, bind.
  rewrite (shm_open_loop_interrupted k (BytePtrFromString name) flags perm n w fd r2 errno
             Hint Hlast Hne Hn).
  destruct (errno =? 0); reflexivity.
Qed.

Lemma ftruncate_loop_interrupted (k : nat) (fd size : Z) :
  forall (n : nat) (w : world) (r : option error),
    (forall j, (j < k)%nat ->
               errors_Is (k_ftruncate K (trace w ++ repeat (EvFtruncate fd size) j)%list fd size)
                 (Errno EINTR) = true) ->
    k_ftruncate K (trace w ++ repeat (EvFtruncate fd size) k)%list fd size = r ->
    errors_Is r (Errno EINTR) = false -> (k < n)%nat ->
    ftruncate_loop n fd size w
    = (Done r, World (trace w ++ repeat (EvFtruncate fd size) (S k))%list (draws w)).
Proof.
  induction k as [|k IH]; intros n w r Hint Hlast Hne Hn;
    (destruct n as [|n]; [lia|]); cbn [ftruncate_loop]; unfold bind, unix_Ftruncate.
  - simpl in Hlast. rewrite app_nil_r in Hlast. rewrite Hlast, Hne. reflexivity.
  - pose proof (Hint 0%nat ltac:(lia)) as H0. simpl in H0. rewrite app_nil_r in H0.
    rewrite H0. simpl.
    rewrite (IH n (record_event (EvFtruncate fd size) w) r).
    + unfold record_event. simpl. now rewrite <- app_assoc.
    + intros j Hj. unfold record_event. cbn [trace]. rewrite snoc_repeat.
      apply Hint. lia.
    + unfold record_event. cbn [trace]. rewrite snoc_repeat. exact Hlast.
    + exact Hne.
    + lia.
Qed.

(** X8: [truncate_or_unlink] repeats [ftruncate], with the same descriptor
    and length, as long as the answer is [EINTR].  If the first [k] answers
    are [EINTR] and the next one is nil, it returns nil after [k + 1] calls
    of [ftruncate] and no other call; if the next one is another error, the
    close and the removal follow and the error comes back wrapped, so that
    [EINTR] itself is never what it reports. *)
Theorem truncate_or_unlink_repeats_while_interrupted (n k : nat) (ans : File) (size : Z)
  (w : world) (r : option error) :
  let ev := EvFtruncate (int (Fd ans)) (int64 size) in
  (forall j, (j < k)%nat ->
             errors_Is (k_ftruncate K (trace w ++ repeat ev j)%list
                          (int (Fd ans)) (int64 size)) (Errno EINTR) = true) ->
  k_ftruncate K (trace w ++ repeat ev k)%list (int (Fd ans)) (int64 size) = r ->
  errors_Is r (Errno EINTR) = false -> (k < n)%nat ->
  truncate_or_unlink n ans size w
  = match r with
    | None => (Done None, World (trace w ++ repeat ev (S k))%list (draws w))
    | Some e =>
        (Done (Some (Errorf "Failed to ftruncate() SHM file %s to size: %d with error: %w"
                       [ArgString (FileName ans); ArgUint size] e)),
         World (trace w ++ repeat ev (S k)
                  ++ [EvClose (Fd ans); EvRemove (FileName ans)])%list (draws w))
    end.
Proof.
  intros ev Hint Hlast Hne Hn. unfold truncate_or_unlink, bind.
  rewrite (ftruncate_loop_interrupted k (int (Fd ans)) (int64 size) n w r Hint Hlast Hne Hn).
  destruct r as [e|]; [|reflexivity].
  unfold File_Close, os_Remove, record_event, ret. cbn [trace draws fst snd].
  now rewrite <- !app_assoc.
Qed.

Lemma int64_of_uint64 (size : Z) :
  0 <= size < 2 ^ 64 ->
  int64 size = if size <? 2 ^ 63 then size else size - 2 ^ 64.
Proof.
  intros H. unfold int64. destruct (size <? 2 ^ 63) eqn:E.
  - apply Z.ltb_lt in E. rewrite Z.mod_small by lia. lia.
  - apply Z.ltb_ge in E.
    replace (size + 2 ^ 63) with (size - 2 ^ 63 + 1 * 2 ^ 64) by lia.
    rewrite Z_mod_plus_full. rewrite Z.mod_small by lia. lia.
Qed.

(** X9: the length [ftruncate] is asked for is the size converted to
    [int64]: the size itself below 2^63, and the negative number
    [size - 2^64] from 2^63 on. *)
Theorem truncate_length_is_int64 (n : nat) (ans : File) (size : Z) :
  0 <= size < 2 ^ 64 ->
  emits (fun e => forall fd l,
             e = EvFtruncate fd l ->
             l = if size <? 2 ^ 63 then size else size - 2 ^ 64)
        (truncate_or_unlink n ans size).
Proof.
  intros H. apply emits_truncate_or_unlink; intros fd l E; try discriminate.
  injection E as <- <-. now apply int64_of_uint64.
Qed.


(** *** What [CreateTemp] returns and calls *)

Lemma keeps_draws_ret {A} (a : A) : keeps_draws (ret a).
Proof. intros w. reflexivity. Qed.

Lemma keeps_draws_bind {A B} (m : M A) (k : A -> M B) :
  keeps_draws m -> (forall a, keeps_draws (k a)) -> keeps_draws (bind m k).
Proof.
  intros Hm Hk w. unfold bind. specialize (Hm w).
  destruct (m w) as [[a|] w1]; simpl in *; [|exact Hm].
  now rewrite (Hk a w1).
Qed.

Lemma keeps_draws_ftruncate_loop (n : nat) (fd size : Z) :
  keeps_draws (ftruncate_loop n fd size).
Proof.
  induction n as [|n IH]; simpl; [intros w; reflexivity|].
  apply keeps_draws_bind; [intros w; reflexivity|].
  intros err. destruct (negb _); [apply keeps_draws_ret | exact IH].
Qed.

Lemma keeps_draws_syscall_mmap (n : nat) (file : File) (size : Z)
  (access : AccessFlags) (truncate : bool) :
  keeps_draws (syscall_mmap n file size access truncate).
Proof.
  unfold syscall_mmap. apply keeps_draws_bind.
  - destruct truncate; [|apply keeps_draws_ret].
    unfold truncate_or_unlink. apply keeps_draws_bind; [apply keeps_draws_ftruncate_loop|].
    intros [e|]; [|apply keeps_draws_ret].
    repeat (apply keeps_draws_bind; [intros w; reflexivity | intros _]).
    apply keeps_draws_ret.
  - intros [e|]; [apply keeps_draws_ret|].
    apply keeps_draws_bind.
    + unfold mmap. apply keeps_draws_bind; [intros w; reflexivity|].
      intros [b [e|]]; apply keeps_draws_ret.
    + intros [b [e|]]; [|apply keeps_draws_ret].
      repeat (apply keeps_draws_bind; [intros w; reflexivity | intros _]).
      apply keeps_draws_ret.
Qed.

Lemma syscall_mmap_result (n : nat) (file : File) (size : Z) (access : AccessFlags)
  (truncate : bool) (w w' : world)
  (ans : option syscall_based_mmap) (err : option error) :
  syscall_mmap n file size access truncate w = (Done (ans, err), w') ->
  (exists b, ans = Some (Handle file b false) /\ err = None)
  \/ (ans = None /\ exists e, err = Some e).
Proof.
  unfold syscall_mmap, bind.
  destruct ((if truncate then truncate_or_unlink n file size else ret None) w)
    as [[[e|]|] w1]; try discriminate.
  - intros H. injection H as <- <- <-. right. split; [reflexivity | now eexists].
  - unfold mmap, bind, unix_Mmap.
    destruct (k_mmap K (trace w1) (int (Fd file)) 0 (int size)
                (mmap_prot access) (mmap_flags access)) as [b [e|]];
      simpl; intros H; injection H as <- <- <-.
    + right. split; [reflexivity | now eexists].
    + left. now exists b.
Qed.

Lemma shm_open_result (n : nat) (name : string) (flags perm : Z) (w w' : world)
  (file : option File) (err : option error) :
  shm_open n name flags perm w = (Done (file, err), w') ->
  (exists fd, file = Some (NewFile fd name) /\ err = None)
  \/ (file = None /\ exists e, err = Some e).
Proof.
  unfold shm_open, bind.
  destruct (shm_open_loop n (BytePtrFromString name) flags perm w) as [[[fd [e|]]|] w1];
    simpl; intros H; try discriminate; injection H as <- <- <-.
  - right. split; [reflexivity | now eexists].
  - left. now exists fd.
Qed.

Lemma create_loop_unfold (n : nat) (p s : string) (left : nat) (try : Z) (w : world) :
  create_loop n p s left try w
  = let name := p ++ suffix_of_draw (draws w) ++ s in
    let w1 := World (trace w) (S (draws w)) in
    if len name >? SHM_NAME_MAX then (Done (Return None (Some ErrPatternTooLong)), w1)
    else match shm_open n name create_flags 384 w1 with
         | (Done (file, err), w2) =>
             if already_exists err then
               if try + 1 >? 10000 then
                 (Done (Return None (Some (PathError "createtemp" (p ++ "*" ++ s) ErrExist))),
                  w2)
               else match left with
                    | O => (Spinning, w2)
                    | S left' => create_loop n p s left' (try + 1) w2
                    end
             else (Done (Break file err), w2)
         | (Spinning, w2) => (Spinning, w2)
         end.
Proof.
  destruct left; cbn [create_loop]; unfold bind at 1;
    change (next_random w)
      with (Done (suffix_of_draw (draws w)), World (trace w) (S (draws w)));
    cbv beta iota zeta;
    (destruct (len (p ++ suffix_of_draw (draws w) ++ s) >? SHM_NAME_MAX); [reflexivity|]);
    unfold bind; fold create_flags;
    (destruct (shm_open n (p ++ suffix_of_draw (draws w) ++ s) create_flags 384
                 (World (trace w) (S (draws w)))) as [[[file err]|] w2]; [|reflexivity]);
    destruct (already_exists err); [destruct (try + 1 >? 10000)| | destruct (try + 1 >? 10000)|];
    reflexivity.
Qed.

(** How the loop can end, and how many values it draws on the way. *)
Lemma create_loop_outcome (n : nat) (p s : string) (left : nat) :
  forall (try : Z) (w : world),
    (draws w < draws (snd (create_loop n p s left try w)) <= draws w + S left)%nat
    /\ match fst (create_loop n p s left try w) with
       | Done (Return ans err) => ans = None /\ exists e, err = Some e
       | Done (Break file err) =>
           (exists fd d,
               file = Some (NewFile fd (p ++ suffix_of_draw d ++ s)) /\ err = None
               /\ (draws w <= d < draws (snd (create_loop n p s left try w)))%nat
               /\ len (p ++ suffix_of_draw d ++ s) <= SHM_NAME_MAX)
           \/ (file = None /\ exists e, err = Some e)
       | Spinning => True
       end.
Proof.
  induction left as [|left IH]; intros try w; rewrite create_loop_unfold; cbv zeta;
    (destruct (len (p ++ suffix_of_draw (draws w) ++ s) >? SHM_NAME_MAX) eqn:El;
     [simpl; split; [lia | split; [reflexivity | now eexists]]|]);
    pose proof (shm_open_draws n (p ++ suffix_of_draw (draws w) ++ s) create_flags 384
                  (World (trace w) (S (draws w)))) as Hd;
    (destruct (shm_open n (p ++ suffix_of_draw (draws w) ++ s) create_flags 384
                 (World (trace w) (S (draws w)))) as [[[file err]|] w2] eqn:Ho;
     cbn [snd draws] in Hd; [|simpl; split; [lia | exact I]]);
    (destruct (already_exists err) eqn:Ea;
     [ destruct (try + 1 >? 10000);
       [simpl; split; [lia | split; [reflexivity | now eexists]]|]
     | simpl; split; [lia|];
       destruct (shm_open_result _ _ _ _ _ _ _ _ Ho) as [(fd & -> & ->) | (-> & e & ->)];
       [ left; exists fd, (draws w); repeat split; try lia;
         rewrite Z.gtb_ltb in El; apply Z.ltb_ge in El; exact El
       | right; split; [reflexivity | now eexists] ] ]).
  - simpl. split; [lia | exact I].
  - destruct (IH (try + 1) w2) as [Hdr Hm]. split; [lia|].
    destruct (create_loop n p s left (try + 1) w2) as [[[ans e'|file' e']|] w3];
      cbn [fst snd] in *; try exact Hm.
    destruct Hm as [(fd & d & Hf & He & Hdd & Hl) | Hm]; [left | now right].
    exists fd, d. repeat split; try assumption; lia.
Qed.

Lemma CreateTemp_outcome (n : nat) (pattern : string) (size : Z) (w w' : world)
  (ans : option syscall_based_mmap) (err : option error) :
  CreateTemp n pattern size w = (Done (ans, err), w') ->
  (exists prefix suffix fd d b,
      prefix_and_suffix pattern = (prefix, suffix, None)
      /\ ans = Some (Handle (NewFile fd (with_required_prefix pattern prefix
                                           ++ suffix_of_draw d ++ suffix)) b false)
      /\ err = None
      /\ (draws w <= d < draws w')%nat
      /\ len (with_required_prefix pattern prefix ++ suffix_of_draw d ++ suffix)
         <= SHM_NAME_MAX)
  \/ (ans = None /\ exists e, err = Some e).
Proof.
  unfold CreateTemp, create_temp.
  destruct (prefix_and_suffix pattern) as [[prefix suffix] [e|]] eqn:Hp.
  - intros H. injection H as <- <- <-. right. split; [reflexivity | now eexists].
  - set (p := with_required_prefix pattern prefix). unfold bind.
    pose proof (create_loop_outcome n p suffix (Z.to_nat 10000) 0 w) as [Hdr Hm].
    destruct (create_loop n p suffix (Z.to_nat 10000) 0 w) as [[[a e|file e]|] w1];
      cbn [fst snd] in *; try discriminate.
    + destruct Hm as [-> (e0 & ->)]. intros H. injection H as <- <- <-.
      right. split; [reflexivity | now eexists].
    + destruct Hm as [(fd & d & -> & -> & Hdd & Hl) | (-> & e0 & ->)].
      * intros H.
        pose proof (keeps_draws_syscall_mmap n (NewFile fd (p ++ suffix_of_draw d ++ suffix))
                      size RDWR true w1) as Hk.
        rewrite H in Hk. cbn [snd] in Hk.
        destruct (syscall_mmap_result _ _ _ _ _ _ _ _ _ H) as [(b & -> & ->) | Hr];
          [left | now right].
        exists prefix, suffix, fd, d, b. repeat split; try assumption; lia.
      * intros H. injection H as <- <- <-. right. split; [reflexivity | now eexists].
Qed.

(** X10: a handle that [CreateTemp] returns is not unlinked, comes with no
    error, and is named by the prefix in use, the suffix made of one of the
    values drawn during the call, and the suffix of the pattern; that name is
    not longer than [SHM_NAME_MAX]. *)
Theorem CreateTemp_handle_name (n : nat) (pattern : string) (size : Z) (w w' : world)
  (h : syscall_based_mmap) (err : option error) :
  CreateTemp n pattern size w = (Done (Some h, err), w') ->
  err = None /\ unlinked h = false
  /\ len (Name h) <= SHM_NAME_MAX
  /\ exists prefix suffix d,
       prefix_and_suffix pattern = (prefix, suffix, None)
       /\ (draws w <= d < draws w')%nat
       /\ Name h = with_required_prefix pattern prefix ++ suffix_of_draw d ++ suffix.
Proof.
  intros H.
  destruct (CreateTemp_outcome _ _ _ _ _ _ _ H)
    as [(prefix & suffix & fd & d & b & Hp & Ha & -> & Hd & Hl) | [Ha _]]; [|discriminate].
  injection Ha as ->. repeat split; try assumption.
  exists prefix, suffix, d. now repeat split.
Qed.

(** X11: [CreateTemp] returns either a handle or an error, never both and
    never neither. *)
Theorem CreateTemp_handle_or_error (n : nat) (pattern : string) (size : Z) (w w' : world)
  (ans : option syscall_based_mmap) (err : option error) :
  CreateTemp n pattern size w = (Done (ans, err), w') ->
  (ans <> None /\ err = None) \/ (ans = None /\ err <> None).
Proof.
  intros H.
  destruct (CreateTemp_outcome _ _ _ _ _ _ _ H)
    as [(prefix & suffix & fd & d & b & _ & -> & -> & _) | [-> (e & ->)]].
  - left. split; [discriminate | reflexivity].
  - right. split; [reflexivity | discriminate].
Qed.

(** X13: one call of [CreateTemp] draws at most 10001 random values,
    whatever the system answers. *)
Theorem CreateTemp_draws_at_most_10001 (n : nat) (pattern : string) (size : Z) (w : world) :
  (draws w <= draws (snd (CreateTemp n pattern size w)) <= draws w + Z.to_nat 10001)%nat.
Proof.
  unfold CreateTemp, create_temp.
  destruct (prefix_and_suffix pattern) as [[prefix suffix] [e|]]; [simpl; lia|].
  set (p := with_required_prefix pattern prefix). unfold bind.
  pose proof (create_loop_outcome n p suffix (Z.to_nat 10000) 0 w) as [Hdr _].
  destruct (create_loop n p suffix (Z.to_nat 10000) 0 w) as [[[a e|[file|] [e|]]|] w1];
    cbn [fst snd] in *; try (simpl; lia).
  rewrite keeps_draws_syscall_mmap. lia.
Qed.


Lemma emits_create_loop (P : event -> Prop) (n : nat) (p s : string) :
  (forall name, len name <= SHM_NAME_MAX ->
                P (EvSyscall SYS_SHM_OPEN (BytePtrFromString name)
                     (uintptr create_flags) (uintptr 384))) ->
  forall (left : nat) (try : Z), emits P (create_loop n p s left try).
Proof.
  intros HP. induction left as [|left IH]; intros try; cbn [create_loop];
    (apply emits_bind;
     [unfold next_random; apply emits_bind; [apply emits_rand | intros; apply emits_ret]|]);
    intros rnd;
    (destruct (len (p ++ rnd ++ s) >? SHM_NAME_MAX) eqn:El; [apply emits_ret|]);
    (apply emits_bind;
     [apply emits_shm_open; apply HP;
      rewrite Z.gtb_ltb in El; apply Z.ltb_ge in El; exact El|]);
    intros [file err]; (destruct (already_exists err); [|apply emits_ret]);
    (destruct (try + 1 >? 10000); [apply emits_ret|]).
  - apply emits_spin.
  - apply IH.
Qed.

(** X12: every trap [CreateTemp] issues is the open trap with the flags
    [O_EXCL|O_CREATE|O_RDWR] and the mode 0600, on a name that is not longer
    than [SHM_NAME_MAX]; what it truncates to is [int64(size)]; what it maps
    is [int(size)] bytes at offset zero, readable, writable and shared; and
    it never calls [os.Stat] or [munmap]. *)
Theorem CreateTemp_calls (n : nat) (pattern : string) (size : Z) :
  emits (create_temp_call size) (CreateTemp n pattern size).
Proof.
  unfold CreateTemp, create_temp.
  destruct (prefix_and_suffix pattern) as [[prefix suffix] [e|]]; [apply emits_ret|].
  apply emits_bind.
  - apply emits_create_loop. intros name Hl. simpl.
    repeat split; try reflexivity. now exists name.
  - intros [ans err | [file|] [e|]]; try apply emits_ret.
    apply emits_syscall_mmap; simpl; auto.
Qed.

(** *** Termination *)

Lemma shm_open_returns (n : nat) (name : string) (flags perm : Z) (w : world) :
  (forall h trap a1 a2 a3, snd (k_syscall K h trap a1 a2 a3) <> EINTR) ->
  exists r, shm_open (S n) name flags perm w
            = (Done r, record_event (EvSyscall SYS_SHM_OPEN (BytePtrFromString name)
                                       (uintptr flags) (uintptr perm)) w).
Proof.
  intros HK. unfold shm_open, bind. cbn [shm_open_loop]. unfold bind, unix_Syscall.
  specialize (HK (trace w) SYS_SHM_OPEN (BytePtrFromString name) (uintptr flags) (uintptr perm)).
  destruct (k_syscall K (trace w) SYS_SHM_OPEN (BytePtrFromString name)
              (uintptr flags) (uintptr perm)) as [[fd r2] errno].
  simpl in HK. apply Z.eqb_neq in HK. rewrite HK. simpl.
  destruct (negb (errno =? 0)); eexists; reflexivity.
Qed.

Lemma create_loop_returns (n : nat) (p s : string) :
  (forall h trap a1 a2 a3, snd (k_syscall K h trap a1 a2 a3) <> EINTR) ->
  forall (left : nat) (try : Z) (w : world),
    try + Z.of_nat left = 10000 ->
    exists r w', create_loop (S n) p s left try w = (Done r, w').
Proof.
  intros HK. induction left as [|left IH]; intros try w Ht; rewrite create_loop_unfold;
    cbv zeta;
    (destruct (len (p ++ suffix_of_draw (draws w) ++ s) >? SHM_NAME_MAX);
     [eexists _, _; reflexivity|]);
    destruct (shm_open_returns n (p ++ suffix_of_draw (draws w) ++ s) create_flags 384
                (World (trace w) (S (draws w))) HK) as [[file err] ->];
    (destruct (already_exists err); [|eexists _, _; reflexivity]).
  - assert (E : (try + 1 >? 10000) = true)
      by (rewrite Z.gtb_ltb; apply Z.ltb_lt; lia).
    rewrite E. eexists _, _; reflexivity.
  - destruct (try + 1 >? 10000); [eexists _, _; reflexivity|].
    apply IH. lia.
Qed.

Lemma syscall_mmap_returns (n : nat) (file : File) (size : Z) (access : AccessFlags)
  (truncate : bool) (w : world) :
  (forall h fd l, errors_Is (k_ftruncate K h fd l) (Errno EINTR) = false) ->
  exists r w', syscall_mmap (S n) file size access truncate w = (Done r, w').
Proof.
  intros HF. unfold syscall_mmap, bind.
  assert (Ht : exists r w1,
             (if truncate then truncate_or_unlink (S n) file size else ret None) w
             = (Done r, w1)).
  { destruct truncate; [|eexists _, _; reflexivity].
    unfold truncate_or_unlink, bind. cbn [ftruncate_loop]. unfold bind, unix_Ftruncate.
    rewrite HF. simpl.
    destruct (k_ftruncate K (trace w) (int (Fd file)) (int64 size));
      eexists _, _; reflexivity. }
  destruct Ht as (r & w1 & ->). destruct r as [e|]; [eexists _, _; reflexivity|].
  unfold mmap, bind, unix_Mmap.
  destruct (k_mmap K (trace w1) (int (Fd file)) 0 (int size)
              (mmap_prot access) (mmap_flags access)) as [b [e|]];
    eexists _, _; reflexivity.
Qed.

(** X14: on a system that never answers [EINTR], neither to a trap nor to
    [ftruncate], [CreateTemp] returns, with a handle or an error, as soon as
    its loops are given room for a single turn: the creation loop ends by
    itself within its 10001 turns. *)
Theorem CreateTemp_returns_when_not_interrupted (n : nat) (pattern : string) (size : Z)
  (w : world) :
  (forall h trap a1 a2 a3, snd (k_syscall K h trap a1 a2 a3) <> EINTR) ->
  (forall h fd l, errors_Is (k_ftruncate K h fd l) (Errno EINTR) = false) ->
  (0 < n)%nat ->
  exists r w', CreateTemp n pattern size w = (Done r, w').
Proof.
  intros HK HF Hn. destruct n as [|n]; [lia|].
  unfold CreateTemp, create_temp.
  destruct (prefix_and_suffix pattern) as [[prefix suffix] [e|]];
    [eexists _, _; reflexivity|].
  unfold bind.
  destruct (create_loop_returns n (with_required_prefix pattern prefix) suffix HK
              (Z.to_nat 10000) 0 w ltac:(lia)) as (r & w1 & ->).
  destruct r as [ans err | [file|] [e|]]; try (eexists _, _; reflexivity).
  now apply syscall_mmap_returns.
Qed.

(** *** Handles in use *)

Lemma run_op_invariant (n : nat) (op : handle_op) (self : syscall_based_mmap) (w : world) :
  match fst (run_op n op self w) with
  | Done self' =>
      f self' = f self
      /\ (unlinked self = true -> unlinked self' = true)
      /\ (region self' = region self \/ region self' = None)
  | Spinning => True
  end.
Proof.
  destruct op; simpl; auto.
  unfold Unlink. destruct (unlinked self) eqn:Hu; simpl; auto.
  unfold bind. destruct (shm_unlink n _ w) as [[err|] w1]; simpl; auto.
Qed.

(** X15: whatever calls are made on a handle, in any number and order, its
    file and so its name stay the same, it does not go from unlinked to
    linked, and its region is the one it had or nil. *)
Theorem handle_operations_keep_file (n : nat) (ops : list handle_op) :
  forall (self : syscall_based_mmap) (w : world),
    match fst (run_ops n ops self w) with
    | Done self' =>
        f self' = f self /\ Name self' = Name self
        /\ (unlinked self = true -> unlinked self' = true)
        /\ (Slice self' = Slice self \/ Slice self' = None)
    | Spinning => True
    end.
Proof.
  induction ops as [|op rest IH]; intros self w; simpl.
  - repeat split; auto.
  - unfold bind. pose proof (run_op_invariant n op self w) as H1.
    destruct (run_op n op self w) as [[self1|] w1]; simpl in *; [|exact I].
    specialize (IH self1 w1).
    destruct (run_ops n rest self1 w1) as [[self2|] w2]; simpl in *; [|exact I].
    destruct H1 as (Hf1 & Hu1 & Hr1). destruct IH as (Hf2 & Hn2 & Hu2 & Hr2).
    unfold Name, Slice in *. repeat split.
    + congruence.
    + congruence.
    + auto.
    + destruct Hr2 as [Hr2 | Hr2]; [|now right].
      destruct Hr1 as [Hr1 | Hr1]; [left | right]; congruence.
Qed.


(** *** What [Open] returns *)

(** X17: [Open] returns either a handle or an error.  The handle is of the
    given name and not unlinked.  When the open trap fails, the error is
    what [shm_open] reported and nothing is called after the traps. *)
Theorem Open_handle_or_error (n : nat) (name : string) (w : world) :
  (forall w' ans err,
      Open n name w = (Done (ans, err), w') ->
      (exists h, ans = Some h /\ err = None /\ Name h = name /\ unlinked h = false)
      \/ (ans = None /\ err <> None))
  /\ (forall w1 file e,
         shm_open n name O_RDONLY 0 w = (Done (file, Some e), w1) ->
         Open n name w = (Done (None, Some e), w1)).
Proof.
  split.
  - intros w' ans err. unfold Open. unfold bind at 1.
    destruct (shm_open n name O_RDONLY 0 w) as [[[file e]|] w1] eqn:Ho; [|discriminate].
    destruct (shm_open_result _ _ _ _ _ _ _ _ Ho) as [(fd & -> & ->) | (-> & e0 & ->)].
    + unfold bind at 1. unfold os_Stat.
      destruct (k_stat K (trace w1) name) as [sz [e|]].
      * unfold File_Close, bind, ret. simpl. intros H. injection H as <- <- <-.
        right. split; [reflexivity | discriminate].
      * intros H.
        destruct (syscall_mmap_result _ _ _ _ _ _ _ _ _ H) as [(b & -> & ->) | [-> (e & ->)]].
        -- left. eexists. repeat split; reflexivity.
        -- right. split; [reflexivity | discriminate].
    + intros H. injection H as <- <- <-. right. split; [reflexivity | discriminate].
  - intros w1 file e Ho. unfold Open. unfold bind at 1. now rewrite Ho.
Qed.

(** X18: when the object is open and its size known but the mapping fails,
    [Open] closes the descriptor, calls [os.Remove] on the name it was given
    and returns the wrapped error of the mapping. *)
Theorem Open_failed_mapping_removes_name (n : nat) (name : string) (w w1 : world)
  (file : File) (s : Z) (b : byte_slice) (e : error) :
  shm_open n name O_RDONLY 0 w = (Done (Some file, None), w1) ->
  k_stat K (trace w1) name = (s, None) ->
  k_mmap K (trace w1 ++ [EvStat name])%list (int (Fd file)) 0 (int64 s)
    PROT_READ MAP_SHARED = (b, Some e) ->
  Open n name w
  = (Done (None, Some (Errorf "mmap failed with error: %w" [] e)),
     World (trace w1 ++ [EvStat name;
                         EvMmap (int (Fd file)) 0 (int64 s) PROT_READ MAP_SHARED;
                         EvClose (Fd file);
                         EvRemove name])%list (draws w1)).
Proof.
  intros Ho Hs Hm.
  rewrite (Open_stat_succeeds n name w w1 file s Ho Hs).
  rewrite syscall_mmap_no_truncate.
  change (int (uint64 (int64 s))) with (int64 (uint64 (int64 s))).
  rewrite !int64_uint64. cbn [record_event trace draws mmap_prot mmap_flags].
  rewrite Hm, (shm_open_file _ _ _ _ _ _ _ Ho). now rewrite <- app_assoc.
Qed.


(** *** The required prefix *)

Lemma prefix_empty (a : string) : String.prefix "" a = true.
Proof. destruct a; reflexivity. Qed.

Lemma prefix_append_left (r a : string) : String.prefix r (r ++ a) = true.
Proof.
  induction r as [|x r IH]; simpl; [apply prefix_empty|].
  destruct (ascii_dec x x); [exact IH | congruence].
Qed.

Lemma prefix_append_right (r : string) :
  forall a b, String.prefix r a = true -> String.prefix r (a ++ b) = true.
Proof.
  induction r as [|x r IH]; intros a b H; [apply prefix_empty|].
  destruct a as [|y a]; simpl in *; [discriminate|].
  destruct (ascii_dec x y); [now apply IH | discriminate].
Qed.

Lemma prefix_before_absent_char (c : ascii) (r : string) :
  forall a b,
    (forall i, String.get i r <> Some c) ->
    String.prefix r (a ++ String c b) = true -> String.prefix r a = true.
Proof.
  induction r as [|x r IH]; intros a b Hno H; [apply prefix_empty|].
  destruct a as [|y a]; simpl in *.
  - destruct (ascii_dec x c) as [->|]; [|discriminate].
    now destruct (Hno 0%nat).
  - destruct (ascii_dec x y); [|discriminate].
    apply (IH a b); [|exact H]. intros i. exact (Hno (S i)).
Qed.

Lemma with_required_prefix_leads (pattern prefix suffix : string) :
  prefix_and_suffix pattern = (prefix, suffix, None) ->
  (forall i, String.get i SHM_REQUIRED_PREFIX <> Some "*"%char) ->
  HasPrefix (with_required_prefix pattern prefix) SHM_REQUIRED_PREFIX = true.
Proof.
  intros Hp Hno. unfold with_required_prefix, HasPrefix.
  destruct (SHM_REQUIRED_PREFIX =? "")%string eqn:Ee.
  - apply String.eqb_eq in Ee. rewrite Ee. apply prefix_empty.
  - simpl. destruct (String.prefix SHM_REQUIRED_PREFIX pattern) eqn:Eh; simpl.
    + revert Hp.
      unfold prefix_and_suffix, LastIndexByte, slice_to, slice_from.
      destruct (has_separator pattern); [discriminate|].
      pose proof (LastIndexByte_from_split "*"%char pattern 0 ltac:(lia)) as H.
      cbv zeta in H.
      destruct H as [[Hr _] | (k & Hr & Hk & Hs & _)]; rewrite Hr.
      * simpl. intros E. injection E as <- _. exact Eh.
      * destruct (0 + Z.of_nat k =? -1) eqn:E; [apply Z.eqb_eq in E; lia|].
        simpl negb. cbv iota.
        replace (Z.to_nat (0 + Z.of_nat k)) with k by lia.
        intros E'. injection E' as <- _.
        rewrite Hs in Eh. exact (prefix_before_absent_char _ _ _ _ Hno Eh).
    + apply prefix_append_left.
Qed.

(** X19: when the required prefix holds no star, the name of a handle that
    [CreateTemp] returns begins with it, whether the pattern had it or
    not. *)
Theorem CreateTemp_name_has_required_prefix (n : nat) (pattern : string) (size : Z)
  (w w' : world) (h : syscall_based_mmap) (err : option error) :
  (forall i, String.get i SHM_REQUIRED_PREFIX <> Some "*"%char) ->
  CreateTemp n pattern size w = (Done (Some h, err), w') ->
  HasPrefix (Name h) SHM_REQUIRED_PREFIX = true.
Proof.
  intros Hno H.
  destruct (CreateTemp_outcome _ _ _ _ _ _ _ H)
    as [(prefix & suffix & fd & d & b & Hp & Ha & _) | [Ha _]]; [|discriminate].
  injection Ha as ->. unfold Name, HasPrefix. cbn [f FileName].
  apply prefix_append_right. exact (with_required_prefix_leads _ _ _ Hp Hno).
Qed.

(** *** A handle and its descriptor *)

(** X20: when [syscall_mmap] returns a handle, all it has called is
    [ftruncate], and that only when asked to truncate, and then the mapping;
    it has closed nothing and removed nothing.  The handle is of the given
    file, not unlinked, and its region is what the mapping returned. *)
Theorem syscall_mmap_handle (n : nat) (file : File) (size : Z) (access : AccessFlags)
  (truncate : bool) (w w' : world) (h : syscall_based_mmap) (err : option error) :
  syscall_mmap n file size access truncate w = (Done (Some h, err), w') ->
  err = None /\ f h = file /\ unlinked h = false
  /\ exists d,
       trace w'
       = (trace w ++ d ++ [EvMmap (int (Fd file)) 0 (int size)
                             (mmap_prot access) (mmap_flags access)])%list
       /\ Forall (fun e => e = EvFtruncate (int (Fd file)) (int64 size)) d
       /\ (truncate = false -> d = [])
       /\ region h = fst (k_mmap K (trace w ++ d)%list (int (Fd file)) 0 (int size)
                            (mmap_prot access) (mmap_flags access)).
Proof.
  unfold syscall_mmap. unfold bind at 1.
  assert (Ht : forall r w1,
             (if truncate then truncate_or_unlink n file size else ret None) w
             = (Done r, w1) ->
             r = None ->
             exists d, trace w1 = (trace w ++ d)%list
                       /\ Forall (fun e => e = EvFtruncate (int (Fd file)) (int64 size)) d
                       /\ (truncate = false -> d = [])).
  { intros r w1 Hr ->. destruct truncate.
    - unfold truncate_or_unlink, bind in Hr.
      destruct (emits_ftruncate_loop
                  (fun e => e = EvFtruncate (int (Fd file)) (int64 size))
                  n (int (Fd file)) (int64 size) eq_refl w) as (d & Hd & HF).
      destruct (ftruncate_loop n (int (Fd file)) (int64 size) w) as [[[e|]|] w2];
        simpl in *; try discriminate.
      injection Hr as <-. exists d. repeat split; try assumption. discriminate.
    - injection Hr as <-. exists []. rewrite app_nil_r. repeat split; constructor. }
  destruct ((if truncate then truncate_or_unlink n file size else ret None) w)
    as [[[e|]|] w1]; try discriminate.
  destruct (Ht None w1 eq_refl eq_refl) as (d & Hd & HF & Hn).
  unfold mmap, bind, unix_Mmap.
  destruct (k_mmap K (trace w1) (int (Fd file)) 0 (int size)
              (mmap_prot access) (mmap_flags access)) as [b [e|]] eqn:Hm; simpl;
    intros H; [discriminate|].
  injection H as <- <- <-. repeat split.
  exists d. split; [|split; [exact HF | split; [exact Hn|]]].
  - simpl. now rewrite Hd, <- app_assoc.
  - rewrite <- Hd, Hm. reflexivity.
Qed.

End Shm.

(** ** Runs on the kernels above *)

Lemma Unlink_issues_shm_open_trap_witness :
  exists k : nat,
    trace (snd (Unlink quiet_kernel 1 kitty_handle fresh_world))
    = (trace fresh_world
       ++ repeat (EvSyscall SYS_SHM_OPEN (BytePtrFromString (Name kitty_handle)) 0 0) k)%list
    /\ (0 < 1 -> 0 < k)%nat
    /\ forall a1 a2 a3,
         ~ In (EvSyscall SYS_SHM_UNLINK a1 a2 a3)
              (repeat (EvSyscall SYS_SHM_OPEN (BytePtrFromString (Name kitty_handle)) 0 0) k).
Proof.
  apply (Unlink_issues_shm_open_trap quiet_kernel 1 kitty_handle fresh_world).
  reflexivity.
Defined.

(** C7 as it stands fails: when the trap fails, here with [ENOENT], the
    first of the two calls reports the error. *)
Lemma Unlink_twice_first_call_reports_error :
  unlink_twice (failing_trap_kernel ENOENT) 1 kitty_handle fresh_world
  = (Done (Handle (NewFile 3 "kitty-0") (Some (View 4096 64)) true,
           Some (Errorf "shm_unlink() failed with error: %w" [] (Errno ENOENT)),
           None),
     World [EvSyscall SYS_SHM_OPEN (BytePtrFromString "kitty-0") 0 0] 0).
Proof. reflexivity. Qed.

Lemma Unlink_twice_runs_shm_unlink_once_witness :
  unlinked kitty_handle = false
  /\ unlink_twice quiet_kernel 1 kitty_handle fresh_world
     = (Done (Handle (NewFile 3 "kitty-0") (Some (View 4096 64)) true, None, None),
        World [EvSyscall SYS_SHM_OPEN (BytePtrFromString "kitty-0") 0 0] 0)
  /\ unlink_twice (interrupted_then_failing_kernel 2 ENOENT) 3 kitty_handle fresh_world
     = (Done (Handle (NewFile 3 "kitty-0") (Some (View 4096 64)) true,
              Some (Errorf "shm_unlink() failed with error: %w" [] (Errno ENOENT)),
              None),
        World (repeat (EvSyscall SYS_SHM_OPEN (BytePtrFromString "kitty-0") 0 0) 3) 0).
Proof.
  split; [reflexivity|]. split.
  - rewrite (proj1 (proj2 (Unlink_twice_runs_shm_unlink_once quiet_kernel 1 kitty_handle
                             fresh_world eq_refl)) 3 0 ltac:(lia) eq_refl).
    reflexivity.
  - apply (proj2 (proj2 (Unlink_twice_runs_shm_unlink_once
                           (interrupted_then_failing_kernel 2 ENOENT) 3 kitty_handle
                           fresh_world eq_refl))
             2%nat (2 ^ 64 - 1) 0 ENOENT).
    + intros j Hj. destruct j as [|[|j]]; [reflexivity | reflexivity | lia].
    + reflexivity.
    + discriminate.
    + lia.
Defined.

Lemma create_temp_separator_witness :
  (exists i, String.get i "kitty/seg-*" = Some "/"%char)
  /\ CreateTemp quiet_kernel 30 "" fs_ErrExist 1 "kitty/seg-*" 64 fresh_world
     = (Done (None, Some ErrPatternHasSeparator), fresh_world).
Proof.
  assert (H : exists i, String.get i "kitty/seg-*" = Some "/"%char)
    by (exists 5%nat; reflexivity).
  split; [exact H|].
  exact (create_temp_separator quiet_kernel 30 "" fs_ErrExist 1 "kitty/seg-*" 64 fresh_world H).
Defined.

(** C3 as it stands fails: with a limit of 30 the longest candidate for this
    pattern has 32 bytes, yet the value drawn is 0, the candidate has 25
    bytes, and the object is created and mapped. *)
Lemma create_temp_longest_candidate_too_long_yet_created :
  prefix_and_suffix "kitty-shared-memory-seg-*" = ("kitty-shared-memory-seg-", "", None)
  /\ len (with_required_prefix "" "kitty-shared-memory-seg-*" "kitty-shared-memory-seg-")
     + 8 + len "" > 30
  /\ CreateTemp quiet_kernel 30 "" fs_ErrExist 1 "kitty-shared-memory-seg-*" 64 fresh_world
     = (Done (Some (Handle (NewFile 3 "kitty-shared-memory-seg-0")
                      (Some (View 4096 64)) false), None),
        World [EvSyscall SYS_SHM_OPEN (BytePtrFromString "kitty-shared-memory-seg-0")
                 create_flags 384;
               EvFtruncate 3 64;
               EvMmap 3 0 64 (Z.lor PROT_READ PROT_WRITE) MAP_SHARED] 1).
Proof. repeat split; vm_compute; reflexivity. Qed.

Lemma create_temp_too_long_witness :
  prefix_and_suffix "kitty-shared-memory-segment-xy*" = ("kitty-shared-memory-segment-xy", "", None)
  /\ len (with_required_prefix "" "kitty-shared-memory-segment-xy*"
            "kitty-shared-memory-segment-xy") + 1 + len "" > 30
  /\ CreateTemp quiet_kernel 30 "" fs_ErrExist 1 "kitty-shared-memory-segment-xy*" 64 fresh_world
     = (Done (None, Some ErrPatternTooLong), World [] 1).
Proof.
  assert (Hp : prefix_and_suffix "kitty-shared-memory-segment-xy*"
               = ("kitty-shared-memory-segment-xy", "", None)) by reflexivity.
  assert (Hl : len (with_required_prefix "" "kitty-shared-memory-segment-xy*"
                      "kitty-shared-memory-segment-xy") + 1 + len "" > 30)
    by (vm_compute; reflexivity).
  split; [exact Hp|]. split; [exact Hl|].
  exact (create_temp_too_long quiet_kernel 30 "" fs_ErrExist 1
           "kitty-shared-memory-segment-xy*" "kitty-shared-memory-segment-xy" "" 64
           fresh_world Hp Hl).
Defined.

Lemma collisions_when_all_taken (k : nat) :
  forall w, exists wk,
    collisions (failing_trap_kernel EEXIST) 30 k 1 "kitty-" "" w = Some wk.
Proof.
  induction k as [|k IH]; intros w.
  - exists w. reflexivity.
  - change (collisions (failing_trap_kernel EEXIST) 30 (S k) 1 "kitty-" "" w)
      with (collisions (failing_trap_kernel EEXIST) 30 k 1 "kitty-" ""
              (World (trace w
                      ++ [EvSyscall SYS_SHM_OPEN (BytePtrFromString "kitty-0")
                            (uintptr create_flags) (uintptr 384)])%list
                     (S (draws w)))).
    apply IH.
Qed.

Lemma create_temp_retry_policy_witness :
  fst (CreateTemp (failing_trap_kernel EEXIST) 30 "" fs_ErrExist 1 "kitty-*" 64 fresh_world)
  = Done (None, Some (PathError "createtemp" "kitty-*" fs_ErrExist))
  /\ CreateTemp (failing_trap_kernel ENOENT) 30 "" fs_ErrExist 1 "kitty-*" 64 fresh_world
     = (Done (None, Some (Errorf "shm_open() failed with error: %w" [] (Errno ENOENT))),
        World [EvSyscall SYS_SHM_OPEN (BytePtrFromString "kitty-0") create_flags 384] 1).
Proof.
  split.
  - destruct (collisions_when_all_taken (Z.to_nat 10001) fresh_world) as [wk E].
    rewrite (proj1 (proj1 (create_temp_retry_policy (failing_trap_kernel EEXIST) 30 ""
                             fs_ErrExist 1 "kitty-*" "kitty-" "" 64 fresh_world eq_refl)
                      wk E)).
    reflexivity.
  - apply (proj2 (create_temp_retry_policy (failing_trap_kernel ENOENT) 30 "" fs_ErrExist 1
                    "kitty-*" "kitty-" "" 64 fresh_world eq_refl)
             0%nat fresh_world (World [] 1) _ "0" None
             (Errorf "shm_open() failed with error: %w" [] (Errno ENOENT))).
    + lia.
    + reflexivity.
    + reflexivity.
    + vm_compute. discriminate.
    + reflexivity.
    + reflexivity.
Defined.

(** C2 as it stands fails: the error returned when the mapping fails does
    not carry the name of the object that was created; and the calls made
    after the failure are a close and an [os.Remove], with no unlink trap
    among them. *)
Lemma create_temp_mmap_error_omits_name :
  CreateTemp failing_mmap_kernel 30 "" fs_ErrExist 1 "kitty-*" 64 fresh_world
  = (Done (None, Some (Errorf "mmap failed with error: %w" [] (Errno ENOMEM))),
     World [EvSyscall SYS_SHM_OPEN (BytePtrFromString "kitty-0") create_flags 384;
            EvFtruncate 3 64;
            EvMmap 3 0 64 (Z.lor PROT_READ PROT_WRITE) MAP_SHARED;
            EvClose 3;
            EvRemove "kitty-0"] 1)
  /\ error_names (Errorf "mmap failed with error: %w" [] (Errno ENOMEM)) "kitty-0" = false
  /\ existsb is_shm_unlink
       (trace (snd (CreateTemp failing_mmap_kernel 30 "" fs_ErrExist 1 "kitty-*" 64
                      fresh_world))) = false.
Proof. repeat split; vm_compute; reflexivity. Qed.

Lemma create_temp_failure_after_creation_witness :
  (exists w3 rest,
      CreateTemp failing_ftruncate_kernel 30 "" fs_ErrExist 1 "kitty-*" 64 fresh_world
      = (Done (None,
               Some (Errorf "truncate failed with error: %w" []
                       (Errorf "Failed to ftruncate() SHM file %s to size: %d with error: %w"
                          [ArgString "kitty-0"; ArgUint 64] (Errno ENOSPC)))), w3)
      /\ trace w3
         = ([EvSyscall SYS_SHM_OPEN (BytePtrFromString "kitty-0") create_flags 384;
             EvFtruncate 3 64] ++ EvClose 3 :: rest)%list)
  /\ (exists w3 rest,
         CreateTemp failing_mmap_kernel 30 "" fs_ErrExist 1 "kitty-*" 64 fresh_world
         = (Done (None, Some (Errorf "mmap failed with error: %w" [] (Errno ENOMEM))), w3)
         /\ trace w3
            = ([EvSyscall SYS_SHM_OPEN (BytePtrFromString "kitty-0") create_flags 384;
                EvFtruncate 3 64]
               ++ EvMmap 3 0 64 (Z.lor PROT_READ PROT_WRITE) MAP_SHARED
               :: EvClose 3 :: rest)%list).
Proof.
  split.
  - apply (proj1 (create_temp_failure_after_creation failing_ftruncate_kernel 30 ""
                    fs_ErrExist 1 "kitty-*" "kitty-" "" 64 fresh_world
                    (World [EvSyscall SYS_SHM_OPEN (BytePtrFromString "kitty-0")
                              create_flags 384] 1)
                    (NewFile 3 "kitty-0") eq_refl
                    ltac:(vm_compute; reflexivity))
             (Errno ENOSPC)
             (World [EvSyscall SYS_SHM_OPEN (BytePtrFromString "kitty-0") create_flags 384;
                     EvFtruncate 3 64] 1)).
    reflexivity.
  - apply (proj2 (create_temp_failure_after_creation failing_mmap_kernel 30 ""
                    fs_ErrExist 1 "kitty-*" "kitty-" "" 64 fresh_world
                    (World [EvSyscall SYS_SHM_OPEN (BytePtrFromString "kitty-0")
                              create_flags 384] 1)
                    (NewFile 3 "kitty-0") eq_refl
                    ltac:(vm_compute; reflexivity))
             (Errno ENOMEM) None
             (World [EvSyscall SYS_SHM_OPEN (BytePtrFromString "kitty-0") create_flags 384;
                     EvFtruncate 3 64] 1)).
    + reflexivity.
    + reflexivity.
Defined.

Lemma Open_read_only_witness :
  shm_open quiet_kernel 1 "kitty-0" O_RDONLY 0 fresh_world
  = (Done (Some (NewFile 3 "kitty-0"), None),
     World [EvSyscall SYS_SHM_OPEN (BytePtrFromString "kitty-0") 0 0] 0)
  /\ Open quiet_kernel 1 "kitty-0" fresh_world
     = (Done (Some (Handle (NewFile 3 "kitty-0") (Some (View 4096 64)) false), None),
        World [EvSyscall SYS_SHM_OPEN (BytePtrFromString "kitty-0") 0 0;
               EvStat "kitty-0";
               EvMmap 3 0 64 PROT_READ MAP_SHARED] 0)
  /\ Open failing_stat_kernel 1 "kitty-0" fresh_world
     = (Done (None, Some (PathError "stat" "kitty-0" (Errno ENOENT))),
        World [EvSyscall SYS_SHM_OPEN (BytePtrFromString "kitty-0") 0 0;
               EvStat "kitty-0";
               EvClose 3] 0).
Proof.
  split; [reflexivity|]. split.
  - apply (proj2 (proj2 (proj2 (Open_read_only quiet_kernel 1 "kitty-0" fresh_world)
                           (NewFile 3 "kitty-0")
                           (World [EvSyscall SYS_SHM_OPEN (BytePtrFromString "kitty-0") 0 0] 0)
                           eq_refl))
             (Some (View 4096 64))).
    reflexivity.
  - exact (proj2 (proj2 (Open_read_only failing_stat_kernel 1 "kitty-0" fresh_world)
                    (NewFile 3 "kitty-0")
                    (World [EvSyscall SYS_SHM_OPEN (BytePtrFromString "kitty-0") 0 0] 0)
                    eq_refl)).
Defined.

(** ** Runs for the further properties *)

Lemma prefix_and_suffix_splits_at_last_star_witness :
  prefix_and_suffix "a*b*c" = ("a*b", "c", None)
  /\ "a*b*c" = "a*b" ++ "*" ++ "c"
  /\ forall j, String.get j "c" <> Some "*"%char.
Proof.
  split; [reflexivity|].
  apply (proj1 (prefix_and_suffix_splits_at_last_star "a*b*c" "a*b" "c" eq_refl)).
  exists 1%nat. reflexivity.
Defined.


Lemma shm_open_repeats_while_interrupted_witness :
  shm_open (interrupting_kernel 2) 3 "kitty-0" O_RDONLY 0 fresh_world
  = (Done (Some (NewFile 3 "kitty-0"), None),
     World (repeat (EvSyscall SYS_SHM_OPEN (BytePtrFromString "kitty-0") 0 0) 3) 0).
Proof.
  apply (shm_open_repeats_while_interrupted (interrupting_kernel 2) 3 2 "kitty-0" O_RDONLY 0
           fresh_world 3 0 0).
  - intros j Hj. destruct j as [|[|j]]; [reflexivity | reflexivity | lia].
  - reflexivity.
  - discriminate.
  - lia.
Defined.

Lemma truncate_or_unlink_repeats_while_interrupted_witness :
  truncate_or_unlink (interrupting_kernel 2) 3 (NewFile 3 "kitty-0") 64 fresh_world
  = (Done None, World (repeat (EvFtruncate 3 64) 3) 0).
Proof.
  apply (truncate_or_unlink_repeats_while_interrupted (interrupting_kernel 2) 3 2
           (NewFile 3 "kitty-0") 64 fresh_world None).
  - intros j Hj. destruct j as [|[|j]]; [reflexivity | reflexivity | lia].
  - reflexivity.
  - reflexivity.
  - lia.
Defined.

Lemma truncate_length_is_int64_witness :
  0 <= 2 ^ 63 < 2 ^ 64
  /\ emits (fun e => forall fd l, e = EvFtruncate fd l -> l = - 2 ^ 63)
           (truncate_or_unlink quiet_kernel 1 (NewFile 3 "kitty-0") (2 ^ 63)).
Proof.
  assert (H : 0 <= 2 ^ 63 < 2 ^ 64) by lia.
  split; [exact H|].
  exact (truncate_length_is_int64 quiet_kernel 1 (NewFile 3 "kitty-0") (2 ^ 63) H).
Defined.

Lemma CreateTemp_handle_name_witness :
  CreateTemp quiet_kernel 30 "" fs_ErrExist 1 "kitty-*" 64 fresh_world
  = (Done (Some kitty_handle, None),
     World [EvSyscall SYS_SHM_OPEN (BytePtrFromString "kitty-0") create_flags 384;
            EvFtruncate 3 64;
            EvMmap 3 0 64 (Z.lor PROT_READ PROT_WRITE) MAP_SHARED] 1)
  /\ len (Name kitty_handle) <= 30.
Proof.
  assert (H : CreateTemp quiet_kernel 30 "" fs_ErrExist 1 "kitty-*" 64 fresh_world
              = (Done (Some kitty_handle, None),
                 World [EvSyscall SYS_SHM_OPEN (BytePtrFromString "kitty-0")
                          create_flags 384;
                        EvFtruncate 3 64;
                        EvMmap 3 0 64 (Z.lor PROT_READ PROT_WRITE) MAP_SHARED] 1))
    by (vm_compute; reflexivity).
  split; [exact H|].
  exact (proj1 (proj2 (proj2 (CreateTemp_handle_name quiet_kernel 30 "" fs_ErrExist 1
                                "kitty-*" 64 fresh_world _ kitty_handle None H)))).
Defined.

Lemma CreateTemp_handle_or_error_witness :
  fst (CreateTemp quiet_kernel 30 "" fs_ErrExist 1 "kitty-*" 64 fresh_world)
  = Done (Some kitty_handle, None)
  /\ ((Some kitty_handle <> None /\ @None error = None)
      \/ (Some kitty_handle = None /\ @None error <> None)).
Proof.
  split; [vm_compute; reflexivity|].
  apply (CreateTemp_handle_or_error quiet_kernel 30 "" fs_ErrExist 1 "kitty-*" 64 fresh_world
           (World [EvSyscall SYS_SHM_OPEN (BytePtrFromString "kitty-0") create_flags 384;
                   EvFtruncate 3 64;
                   EvMmap 3 0 64 (Z.lor PROT_READ PROT_WRITE) MAP_SHARED] 1)
           (Some kitty_handle) None).
  vm_compute. reflexivity.
Defined.

Lemma CreateTemp_returns_when_not_interrupted_witness :
  exists r w',
    CreateTemp quiet_kernel 30 "" fs_ErrExist 1 "kitty-*" 64 fresh_world = (Done r, w').
Proof.
  apply (CreateTemp_returns_when_not_interrupted quiet_kernel 30 "" fs_ErrExist 1
           "kitty-*" 64 fresh_world).
  - intros h trap a1 a2 a3. simpl. discriminate.
  - intros h fd l. reflexivity.
  - lia.
Defined.

Lemma Open_handle_or_error_witness :
  Open (failing_trap_kernel ENOENT) 1 "kitty-0" fresh_world
  = (Done (None, Some (Errorf "shm_open() failed with error: %w" [] (Errno ENOENT))),
     World [EvSyscall SYS_SHM_OPEN (BytePtrFromString "kitty-0") 0 0] 0).
Proof.
  apply (proj2 (Open_handle_or_error (failing_trap_kernel ENOENT) 1 "kitty-0" fresh_world)
           _ None).
  reflexivity.
Defined.

Lemma Open_failed_mapping_removes_name_witness :
  Open failing_mmap_kernel 1 "kitty-0" fresh_world
  = (Done (None, Some (Errorf "mmap failed with error: %w" [] (Errno ENOMEM))),
     World [EvSyscall SYS_SHM_OPEN (BytePtrFromString "kitty-0") 0 0;
            EvStat "kitty-0";
            EvMmap 3 0 64 PROT_READ MAP_SHARED;
            EvClose 3;
            EvRemove "kitty-0"] 0).
Proof.
  apply (Open_failed_mapping_removes_name failing_mmap_kernel 1 "kitty-0" fresh_world
           (World [EvSyscall SYS_SHM_OPEN (BytePtrFromString "kitty-0") 0 0] 0)
           (NewFile 3 "kitty-0") 64 None (Errno ENOMEM)); reflexivity.
Defined.

Lemma CreateTemp_name_has_required_prefix_witness :
  HasPrefix (Name (Handle (NewFile 3 "/kitty-0") (Some (View 4096 64)) false)) "/" = true.
Proof.
  apply (CreateTemp_name_has_required_prefix quiet_kernel 30 "/" fs_ErrExist 1 "kitty-*" 64
           fresh_world
           (World [EvSyscall SYS_SHM_OPEN (BytePtrFromString "/kitty-0") create_flags 384;
                   EvFtruncate 3 64;
                   EvMmap 3 0 64 (Z.lor PROT_READ PROT_WRITE) MAP_SHARED] 1)
           _ None).
  - intros [|i]; simpl; discriminate.
  - vm_compute. reflexivity.
Defined.

Lemma syscall_mmap_handle_witness :
  syscall_mmap quiet_kernel 1 (NewFile 3 "kitty-0") 64 WRITE true fresh_world
  = (Done (Some kitty_handle, None),
     World [EvFtruncate 3 64; EvMmap 3 0 64 (Z.lor PROT_READ PROT_WRITE) MAP_SHARED] 0)
  /\ f kitty_handle = NewFile 3 "kitty-0".
Proof.
  assert (H : syscall_mmap quiet_kernel 1 (NewFile 3 "kitty-0") 64 WRITE true fresh_world
              = (Done (Some kitty_handle, None),
                 World [EvFtruncate 3 64;
                        EvMmap 3 0 64 (Z.lor PROT_READ PROT_WRITE) MAP_SHARED] 0))
    by reflexivity.
  split; [exact H|].
  exact (proj1 (proj2 (syscall_mmap_handle quiet_kernel 1 (NewFile 3 "kitty-0") 64 WRITE true
                         fresh_world _ kitty_handle None H))).
Defined.
